(** * Cat-sArcade: the integrated overworld/level platformer

    A shallow embedding of [smb3bygptandgeminiplusgrokv0.5.16.25.py]:
    the spatial grid, level loading, the per-tick level update with its
    axis-separated collision passes, the hurt/death handlers, overworld
    navigation and the event/dispatch part of the frame loop.

    Conventions.
    - Python [int] is [Z]; [//] is [Z.div] and [%] is [Z.modulo] (both
      floor, like Python for a positive divisor).
    - Python [float] (velocities, [dt], [time_left], the overworld input
      timer) is modelled by exact rationals [Q]; rounding is not modelled.
    - A [pygame.Rect] holds four integers.  Assigning a float to one of its
      attributes truncates toward zero ([Qtrunc]).
    - Sound playback, printing and drawing do not touch the game state and
      are left out.
    - An uncaught Python exception is [None] in the [option] monad. *)

From Stdlib Require Import ZArith QArith Qround String Lia.
From stdpp Require Import base option list gmap.

Local Open Scope Z_scope.

(** ** Constants *)

Definition W : Z := 640.
Definition H : Z := 400.
Definition FPS : Z := 60.
Definition GRAVITY : Q := (55 # 100)%Q.
Definition JUMP_VEL : Q := (-10 # 1)%Q.
Definition TILE : Z := 16.
Definition SCALE : Z := 2.

(** ** Floats as rationals *)

Definition Qlt_bool (a b : Q) : bool := negb (Qle_bool b a).

(** Conversion of a float to a C [int]: truncation toward zero. *)
Definition Qtrunc (q : Q) : Z := Z.quot (Qnum q) (Zpos (Qden q)).

(** [int(x)] of a Python float: also truncation toward zero. *)
Definition py_int (q : Q) : Z := Qtrunc q.

(** ** pygame.Rect *)

Record Rect : Type := mkRect { rx : Z; ry : Z; rw : Z; rh : Z }.

#[global] Instance Rect_eq_dec : EqDecision Rect.
Proof. solve_decision. Defined.

Module R.
Definition left (r : Rect) : Z := rx r.
Definition top (r : Rect) : Z := ry r.
Definition right (r : Rect) : Z := rx r + rw r.
Definition bottom (r : Rect) : Z := ry r + rh r.
(* pygame computes centres with C integer division *)
Definition centerx (r : Rect) : Z := rx r + Z.quot (rw r) 2.
Definition centery (r : Rect) : Z := ry r + Z.quot (rh r) 2.
Definition midbottom (r : Rect) : Z * Z := (centerx r, bottom r).
Definition size (r : Rect) : Z * Z := (rw r, rh r).

Definition set_x (v : Z) (r : Rect) : Rect := mkRect v (ry r) (rw r) (rh r).
Definition set_y (v : Z) (r : Rect) : Rect := mkRect (rx r) v (rw r) (rh r).
Definition set_left (v : Z) (r : Rect) : Rect := set_x v r.
Definition set_top (v : Z) (r : Rect) : Rect := set_y v r.
Definition set_right (v : Z) (r : Rect) : Rect := set_x (v - rw r) r.
Definition set_bottom (v : Z) (r : Rect) : Rect := set_y (v - rh r) r.
Definition set_size (s : Z * Z) (r : Rect) : Rect :=
  mkRect (rx r) (ry r) (fst s) (snd s).
Definition set_midbottom (p : Z * Z) (r : Rect) : Rect :=
  mkRect (fst p - Z.quot (rw r) 2) (snd p - rh r) (rw r) (rh r).

(** [rect.x += v] with a float [v].  The sum is a float, and storing it
    into the Rect converts it to the Rect's C [int].  That conversion is
    pygame's, not this program's, and the program asks for no particular
    pygame version; it is modelled here as truncation toward zero.  A
    pygame that rounds to the nearest integer instead stores a coordinate
    one pixel further in some steps. *)
Definition add_x (v : Q) (r : Rect) : Rect :=
  set_x (Qtrunc (inject_Z (rx r) + v)) r.
Definition add_y (v : Q) (r : Rect) : Rect :=
  set_y (Qtrunc (inject_Z (ry r) + v)) r.

(** [a.colliderect(b)]: rectangles of zero width or height collide with
    nothing; negative sizes are normalised with min and max. *)
Definition colliderect (a b : Rect) : bool :=
  if (rw a =? 0) || (rh a =? 0) || (rw b =? 0) || (rh b =? 0) then false
  else
    (Z.min (rx a) (rx a + rw a) <? Z.max (rx b) (rx b + rw b)) &&
    (Z.min (ry a) (ry a + rh a) <? Z.max (ry b) (ry b + rh b)) &&
    (Z.min (rx b) (rx b + rw b) <? Z.max (rx a) (rx a + rw a)) &&
    (Z.min (ry b) (ry b + rh b) <? Z.max (ry a) (ry a + rh a)).

(** The data model's invariant on rectangles: positive width and height. *)
Definition valid (r : Rect) : Prop := 0 < rw r ∧ 0 < rh r.

Definition r_tuple (r : Rect) : Z * Z * Z * Z := (rx r, ry r, rw r, rh r).
End R.

(** ** Spatial grid *)

(** The grid's buckets hold references to rectangle objects.  [HasRect]
    gives the bounds of whatever the buckets hold: plain [Rect] values for
    the game (its static rectangles are never mutated), or rectangles tagged
    with an object identity when identity matters. *)
Class HasRect (A : Type) := rect_of : A → Rect.

#[global] Instance Rect_HasRect : HasRect Rect := fun r => r.

Record Grid (A : Type) : Type := mkGrid {
  cell_size : Z;
  cells : gmap (Z * Z) (list A)
}.
Arguments mkGrid {A} _ _.
Arguments cell_size {A} _.
Arguments cells {A} _.

(** Python's [range(a, b)]. *)
Definition py_range (a b : Z) : list Z := seqZ a (b - a).

Section GridOps.
Context {A : Type} `{HasRect A}.

Definition new_grid (cs : Z) : Grid A := mkGrid cs ∅.

Definition clear (g : Grid A) : Grid A := mkGrid (cell_size g) ∅.

(** The cells covered by a rectangle, in the order the two nested [for]
    loops visit them.  The four cell indices are floor divisions by the
    cell size.  For a cell size of zero Python raises ZeroDivisionError
    there, in [insert] and in [query] alike; [cell_range] gives the cells
    for a cell size that is not zero (the game's only grid is built with
    the cell size [TILE * SCALE * 2]). *)
Definition cell_range (cs : Z) (r : Rect) : list (Z * Z) :=
  let cx1 := R.left r / cs in
  let cy1 := R.top r / cs in
  let cx2 := R.right r / cs in
  let cy2 := R.bottom r / cs in
  cx ← py_range cx1 (cx2 + 1);
  cy ← py_range cy1 (cy2 + 1);
  [(cx, cy)].

(** [self.cells.setdefault(c, []).append(rect)] *)
Definition bucket_append (a : A) (m : gmap (Z * Z) (list A)) (c : Z * Z)
  : gmap (Z * Z) (list A) :=
  <[c := default [] (m !! c) ++ [a]]> m.

Definition insert_rect (a : A) (g : Grid A) : Grid A :=
  mkGrid (cell_size g)
         (foldl (bucket_append a) (cells g) (cell_range (cell_size g) (rect_of a))).

(** The bucket contents a query walks through, in visiting order. *)
Definition bucket_scan (g : Grid A) (q : Rect) : list A :=
  c ← cell_range (cell_size g) q; default [] (cells g !! c).

(** One iteration of the innermost loop of [query]: keep [r] unless its
    bounds tuple was seen before. *)
Definition query_step (acc : gset (Z * Z * Z * Z) * list A) (a : A)
  : gset (Z * Z * Z * Z) * list A :=
  let t := R.r_tuple (rect_of a) in
  if decide (t ∈ acc.1) then acc else ({[ t ]} ∪ acc.1, acc.2 ++ [a]).

Definition query (g : Grid A) (q : Rect) : list A :=
  (foldl query_step (∅, []) (bucket_scan g q)).2.


(** The inserts of a list of rectangles, in order. *)
Definition inserts (l : list A) (g : Grid A) : Grid A :=
  foldl (fun g a => insert_rect a g) g l.

(** Membership of a bucket. *)
Definition in_bucket (m : gmap (Z * Z) (list A)) (c : Z * Z) (a : A) : Prop :=
  a ∈ default [] (m !! c).

(** The loop invariant of [query]: [seen] holds exactly the bounds of
    the rectangles collected so far, and these are pairwise different. *)
Definition seen_ok (acc : gset (Z * Z * Z * Z) * list A) : Prop :=
  (∀ t, t ∈ acc.1 ↔ ∃ a, a ∈ acc.2 ∧ R.r_tuple (rect_of a) = t) ∧
  NoDup ((fun a => R.r_tuple (rect_of a)) <$> acc.2).
End GridOps.

(** A rectangle object: bounds plus the identity of the Python object. *)
Record RectObj : Type := mkObj { oid : nat; bounds : Rect }.

#[global] Instance RectObj_HasRect : HasRect RectObj := bounds.
#[global] Instance RectObj_eq_dec : EqDecision RectObj.
Proof. solve_decision. Defined.


(** ** Python lists *)

(** [l[i]] with Python's negative indices; [None] is an [IndexError]. *)
Definition py_index {A : Type} (l : list A) (i : Z) : option A :=
  let n := Z.of_nat (length l) in
  if (0 <=? i) && (i <? n) then l !! Z.to_nat i
  else if (- n <=? i) && (i <? 0) then l !! Z.to_nat (n + i)
  else None.

(** [l.remove(x)]: drops the first element equal to [x]; [None] is the
    [ValueError] raised when there is none. *)
Fixpoint py_remove {A : Type} (eqb : A → A → bool) (x : A) (l : list A)
  : option (list A) :=
  match l with
  | [] => None
  | y :: l' => if eqb y x then Some l' else cons y <$> py_remove eqb x l'
  end.

(** ** Level specifications and the overworld map *)

Record LevelSpec : Type := mkLevelSpec {
  name : string;
  platforms : list (Z * Z * Z * Z);
  blocks : list (Z * Z);
  coins : list (Z * Z);
  enemies : list (Z * Z * string);
  goal : Z * Z;
  background_color : Z * Z * Z
}.

Record Node : Type := mkNode {
  pos : Z * Z;
  level_id : Z * Z;
  label : string;
  node_type : option string
}.

Record World : Type := mkWorld {
  world_name : string;
  nodes : list Node
}.

(** ** Game objects *)

(** The values the code assigns to [game_state]; pause is the separate
    [paused] flag. *)
Inductive Mode : Type := overworld | level | game_over | victory.

Inductive PlayerState : Type := small | big | fire.

Inductive EnemyState : Type := walking | stomped.

#[global] Instance Mode_eq_dec : EqDecision Mode.
Proof. solve_decision. Defined.
#[global] Instance PlayerState_eq_dec : EqDecision PlayerState.
Proof. solve_decision. Defined.
#[global] Instance EnemyState_eq_dec : EqDecision EnemyState.
Proof. solve_decision. Defined.

(** An entry of [active_enemies] (a dict in the source, keys "rect",
    "type", "vel_x", "orig_y", "state", "vel_y"). *)
Record Enemy : Type := mkEnemy {
  e_rect : Rect;
  e_type : string;
  e_vel_x : Q;
  e_orig_y : Z;
  e_state : EnemyState;
  e_vel_y : Z
}.

(** Dict equality, as [list.remove] uses it: numbers compare by value. *)
Definition enemy_eqb (a b : Enemy) : bool :=
  bool_decide (e_rect a = e_rect b) && String.eqb (e_type a) (e_type b) &&
  Qeq_bool (e_vel_x a) (e_vel_x b) && (e_orig_y a =? e_orig_y b) &&
  bool_decide (e_state a = e_state b) && (e_vel_y a =? e_vel_y b).

Definition rect_eqb (a b : Rect) : bool := bool_decide (a = b).

(** ** The game object *)

(** [active_enemies_id] is not a field of the source: it stands for the
    identity of the list object bound to [self.active_enemies], which the
    enemy loop of [update_level_gameplay] depends on (it iterates over a
    copy while [load_level_from_spec] may rebind the attribute to a new
    list of new dicts). *)
Record Game : Type := mkGame {
  game_state : Mode;
  paused : bool;
  paused_from_state : Mode;
  smw_map_data : list World;
  current_world_on_map : Z;
  current_node_on_map : Z;
  ow_input_delay_timer : Q;
  ow_input_cooldown : Q;
  current_level_spec : option LevelSpec;
  score : Z;
  lives : Z;
  time_left : Q;
  player_state : PlayerState;
  invincibility_timer : Z;
  player_rect : Rect;
  player_vel_x : Q;
  player_vel_y : Q;
  player_on_ground : bool;
  camera_offset_x : Z;
  level_width : Z;
  platform_rects : list Rect;
  block_rects : list Rect;
  coin_rects : list Rect;
  active_enemies : list Enemy;
  active_enemies_id : nat;
  goal_rect : option Rect;
  spatial_grid : Grid Rect
}.

Definition set_game_state (v : Mode) (g : Game) : Game :=
  {| game_state := v; paused := paused g; paused_from_state :=
     paused_from_state g; smw_map_data := smw_map_data g;
     current_world_on_map := current_world_on_map g; current_node_on_map :=
     current_node_on_map g; ow_input_delay_timer := ow_input_delay_timer g;
     ow_input_cooldown := ow_input_cooldown g; current_level_spec :=
     current_level_spec g; score := score g; lives := lives g; time_left :=
     time_left g; player_state := player_state g; invincibility_timer :=
     invincibility_timer g; player_rect := player_rect g; player_vel_x :=
     player_vel_x g; player_vel_y := player_vel_y g; player_on_ground :=
     player_on_ground g; camera_offset_x := camera_offset_x g; level_width
     := level_width g; platform_rects := platform_rects g; block_rects :=
     block_rects g; coin_rects := coin_rects g; active_enemies :=
     active_enemies g; active_enemies_id := active_enemies_id g; goal_rect
     := goal_rect g; spatial_grid := spatial_grid g |}.

Definition set_paused (v : bool) (g : Game) : Game :=
  {| game_state := game_state g; paused := v; paused_from_state :=
     paused_from_state g; smw_map_data := smw_map_data g;
     current_world_on_map := current_world_on_map g; current_node_on_map :=
     current_node_on_map g; ow_input_delay_timer := ow_input_delay_timer g;
     ow_input_cooldown := ow_input_cooldown g; current_level_spec :=
     current_level_spec g; score := score g; lives := lives g; time_left :=
     time_left g; player_state := player_state g; invincibility_timer :=
     invincibility_timer g; player_rect := player_rect g; player_vel_x :=
     player_vel_x g; player_vel_y := player_vel_y g; player_on_ground :=
     player_on_ground g; camera_offset_x := camera_offset_x g; level_width
     := level_width g; platform_rects := platform_rects g; block_rects :=
     block_rects g; coin_rects := coin_rects g; active_enemies :=
     active_enemies g; active_enemies_id := active_enemies_id g; goal_rect
     := goal_rect g; spatial_grid := spatial_grid g |}.

Definition set_paused_from_state (v : Mode) (g : Game) : Game :=
  {| game_state := game_state g; paused := paused g; paused_from_state := v;
     smw_map_data := smw_map_data g; current_world_on_map :=
     current_world_on_map g; current_node_on_map := current_node_on_map g;
     ow_input_delay_timer := ow_input_delay_timer g; ow_input_cooldown :=
     ow_input_cooldown g; current_level_spec := current_level_spec g; score
     := score g; lives := lives g; time_left := time_left g; player_state :=
     player_state g; invincibility_timer := invincibility_timer g;
     player_rect := player_rect g; player_vel_x := player_vel_x g;
     player_vel_y := player_vel_y g; player_on_ground := player_on_ground g;
     camera_offset_x := camera_offset_x g; level_width := level_width g;
     platform_rects := platform_rects g; block_rects := block_rects g;
     coin_rects := coin_rects g; active_enemies := active_enemies g;
     active_enemies_id := active_enemies_id g; goal_rect := goal_rect g;
     spatial_grid := spatial_grid g |}.

Definition set_current_world_on_map (v : Z) (g : Game) : Game :=
  {| game_state := game_state g; paused := paused g; paused_from_state :=
     paused_from_state g; smw_map_data := smw_map_data g;
     current_world_on_map := v; current_node_on_map := current_node_on_map
     g; ow_input_delay_timer := ow_input_delay_timer g; ow_input_cooldown :=
     ow_input_cooldown g; current_level_spec := current_level_spec g; score
     := score g; lives := lives g; time_left := time_left g; player_state :=
     player_state g; invincibility_timer := invincibility_timer g;
     player_rect := player_rect g; player_vel_x := player_vel_x g;
     player_vel_y := player_vel_y g; player_on_ground := player_on_ground g;
     camera_offset_x := camera_offset_x g; level_width := level_width g;
     platform_rects := platform_rects g; block_rects := block_rects g;
     coin_rects := coin_rects g; active_enemies := active_enemies g;
     active_enemies_id := active_enemies_id g; goal_rect := goal_rect g;
     spatial_grid := spatial_grid g |}.

Definition set_current_node_on_map (v : Z) (g : Game) : Game :=
  {| game_state := game_state g; paused := paused g; paused_from_state :=
     paused_from_state g; smw_map_data := smw_map_data g;
     current_world_on_map := current_world_on_map g; current_node_on_map :=
     v; ow_input_delay_timer := ow_input_delay_timer g; ow_input_cooldown :=
     ow_input_cooldown g; current_level_spec := current_level_spec g; score
     := score g; lives := lives g; time_left := time_left g; player_state :=
     player_state g; invincibility_timer := invincibility_timer g;
     player_rect := player_rect g; player_vel_x := player_vel_x g;
     player_vel_y := player_vel_y g; player_on_ground := player_on_ground g;
     camera_offset_x := camera_offset_x g; level_width := level_width g;
     platform_rects := platform_rects g; block_rects := block_rects g;
     coin_rects := coin_rects g; active_enemies := active_enemies g;
     active_enemies_id := active_enemies_id g; goal_rect := goal_rect g;
     spatial_grid := spatial_grid g |}.

Definition set_ow_input_delay_timer (v : Q) (g : Game) : Game :=
  {| game_state := game_state g; paused := paused g; paused_from_state :=
     paused_from_state g; smw_map_data := smw_map_data g;
     current_world_on_map := current_world_on_map g; current_node_on_map :=
     current_node_on_map g; ow_input_delay_timer := v; ow_input_cooldown :=
     ow_input_cooldown g; current_level_spec := current_level_spec g; score
     := score g; lives := lives g; time_left := time_left g; player_state :=
     player_state g; invincibility_timer := invincibility_timer g;
     player_rect := player_rect g; player_vel_x := player_vel_x g;
     player_vel_y := player_vel_y g; player_on_ground := player_on_ground g;
     camera_offset_x := camera_offset_x g; level_width := level_width g;
     platform_rects := platform_rects g; block_rects := block_rects g;
     coin_rects := coin_rects g; active_enemies := active_enemies g;
     active_enemies_id := active_enemies_id g; goal_rect := goal_rect g;
     spatial_grid := spatial_grid g |}.

Definition set_current_level_spec (v : option LevelSpec) (g : Game) : Game :=
  {| game_state := game_state g; paused := paused g; paused_from_state :=
     paused_from_state g; smw_map_data := smw_map_data g;
     current_world_on_map := current_world_on_map g; current_node_on_map :=
     current_node_on_map g; ow_input_delay_timer := ow_input_delay_timer g;
     ow_input_cooldown := ow_input_cooldown g; current_level_spec := v;
     score := score g; lives := lives g; time_left := time_left g;
     player_state := player_state g; invincibility_timer :=
     invincibility_timer g; player_rect := player_rect g; player_vel_x :=
     player_vel_x g; player_vel_y := player_vel_y g; player_on_ground :=
     player_on_ground g; camera_offset_x := camera_offset_x g; level_width
     := level_width g; platform_rects := platform_rects g; block_rects :=
     block_rects g; coin_rects := coin_rects g; active_enemies :=
     active_enemies g; active_enemies_id := active_enemies_id g; goal_rect
     := goal_rect g; spatial_grid := spatial_grid g |}.

Definition set_score (v : Z) (g : Game) : Game :=
  {| game_state := game_state g; paused := paused g; paused_from_state :=
     paused_from_state g; smw_map_data := smw_map_data g;
     current_world_on_map := current_world_on_map g; current_node_on_map :=
     current_node_on_map g; ow_input_delay_timer := ow_input_delay_timer g;
     ow_input_cooldown := ow_input_cooldown g; current_level_spec :=
     current_level_spec g; score := v; lives := lives g; time_left :=
     time_left g; player_state := player_state g; invincibility_timer :=
     invincibility_timer g; player_rect := player_rect g; player_vel_x :=
     player_vel_x g; player_vel_y := player_vel_y g; player_on_ground :=
     player_on_ground g; camera_offset_x := camera_offset_x g; level_width
     := level_width g; platform_rects := platform_rects g; block_rects :=
     block_rects g; coin_rects := coin_rects g; active_enemies :=
     active_enemies g; active_enemies_id := active_enemies_id g; goal_rect
     := goal_rect g; spatial_grid := spatial_grid g |}.

Definition set_lives (v : Z) (g : Game) : Game :=
  {| game_state := game_state g; paused := paused g; paused_from_state :=
     paused_from_state g; smw_map_data := smw_map_data g;
     current_world_on_map := current_world_on_map g; current_node_on_map :=
     current_node_on_map g; ow_input_delay_timer := ow_input_delay_timer g;
     ow_input_cooldown := ow_input_cooldown g; current_level_spec :=
     current_level_spec g; score := score g; lives := v; time_left :=
     time_left g; player_state := player_state g; invincibility_timer :=
     invincibility_timer g; player_rect := player_rect g; player_vel_x :=
     player_vel_x g; player_vel_y := player_vel_y g; player_on_ground :=
     player_on_ground g; camera_offset_x := camera_offset_x g; level_width
     := level_width g; platform_rects := platform_rects g; block_rects :=
     block_rects g; coin_rects := coin_rects g; active_enemies :=
     active_enemies g; active_enemies_id := active_enemies_id g; goal_rect
     := goal_rect g; spatial_grid := spatial_grid g |}.

Definition set_time_left (v : Q) (g : Game) : Game :=
  {| game_state := game_state g; paused := paused g; paused_from_state :=
     paused_from_state g; smw_map_data := smw_map_data g;
     current_world_on_map := current_world_on_map g; current_node_on_map :=
     current_node_on_map g; ow_input_delay_timer := ow_input_delay_timer g;
     ow_input_cooldown := ow_input_cooldown g; current_level_spec :=
     current_level_spec g; score := score g; lives := lives g; time_left :=
     v; player_state := player_state g; invincibility_timer :=
     invincibility_timer g; player_rect := player_rect g; player_vel_x :=
     player_vel_x g; player_vel_y := player_vel_y g; player_on_ground :=
     player_on_ground g; camera_offset_x := camera_offset_x g; level_width
     := level_width g; platform_rects := platform_rects g; block_rects :=
     block_rects g; coin_rects := coin_rects g; active_enemies :=
     active_enemies g; active_enemies_id := active_enemies_id g; goal_rect
     := goal_rect g; spatial_grid := spatial_grid g |}.

Definition set_player_state (v : PlayerState) (g : Game) : Game :=
  {| game_state := game_state g; paused := paused g; paused_from_state :=
     paused_from_state g; smw_map_data := smw_map_data g;
     current_world_on_map := current_world_on_map g; current_node_on_map :=
     current_node_on_map g; ow_input_delay_timer := ow_input_delay_timer g;
     ow_input_cooldown := ow_input_cooldown g; current_level_spec :=
     current_level_spec g; score := score g; lives := lives g; time_left :=
     time_left g; player_state := v; invincibility_timer :=
     invincibility_timer g; player_rect := player_rect g; player_vel_x :=
     player_vel_x g; player_vel_y := player_vel_y g; player_on_ground :=
     player_on_ground g; camera_offset_x := camera_offset_x g; level_width
     := level_width g; platform_rects := platform_rects g; block_rects :=
     block_rects g; coin_rects := coin_rects g; active_enemies :=
     active_enemies g; active_enemies_id := active_enemies_id g; goal_rect
     := goal_rect g; spatial_grid := spatial_grid g |}.

Definition set_invincibility_timer (v : Z) (g : Game) : Game :=
  {| game_state := game_state g; paused := paused g; paused_from_state :=
     paused_from_state g; smw_map_data := smw_map_data g;
     current_world_on_map := current_world_on_map g; current_node_on_map :=
     current_node_on_map g; ow_input_delay_timer := ow_input_delay_timer g;
     ow_input_cooldown := ow_input_cooldown g; current_level_spec :=
     current_level_spec g; score := score g; lives := lives g; time_left :=
     time_left g; player_state := player_state g; invincibility_timer := v;
     player_rect := player_rect g; player_vel_x := player_vel_x g;
     player_vel_y := player_vel_y g; player_on_ground := player_on_ground g;
     camera_offset_x := camera_offset_x g; level_width := level_width g;
     platform_rects := platform_rects g; block_rects := block_rects g;
     coin_rects := coin_rects g; active_enemies := active_enemies g;
     active_enemies_id := active_enemies_id g; goal_rect := goal_rect g;
     spatial_grid := spatial_grid g |}.

Definition set_player_rect (v : Rect) (g : Game) : Game :=
  {| game_state := game_state g; paused := paused g; paused_from_state :=
     paused_from_state g; smw_map_data := smw_map_data g;
     current_world_on_map := current_world_on_map g; current_node_on_map :=
     current_node_on_map g; ow_input_delay_timer := ow_input_delay_timer g;
     ow_input_cooldown := ow_input_cooldown g; current_level_spec :=
     current_level_spec g; score := score g; lives := lives g; time_left :=
     time_left g; player_state := player_state g; invincibility_timer :=
     invincibility_timer g; player_rect := v; player_vel_x := player_vel_x
     g; player_vel_y := player_vel_y g; player_on_ground := player_on_ground
     g; camera_offset_x := camera_offset_x g; level_width := level_width g;
     platform_rects := platform_rects g; block_rects := block_rects g;
     coin_rects := coin_rects g; active_enemies := active_enemies g;
     active_enemies_id := active_enemies_id g; goal_rect := goal_rect g;
     spatial_grid := spatial_grid g |}.

Definition set_player_vel_x (v : Q) (g : Game) : Game :=
  {| game_state := game_state g; paused := paused g; paused_from_state :=
     paused_from_state g; smw_map_data := smw_map_data g;
     current_world_on_map := current_world_on_map g; current_node_on_map :=
     current_node_on_map g; ow_input_delay_timer := ow_input_delay_timer g;
     ow_input_cooldown := ow_input_cooldown g; current_level_spec :=
     current_level_spec g; score := score g; lives := lives g; time_left :=
     time_left g; player_state := player_state g; invincibility_timer :=
     invincibility_timer g; player_rect := player_rect g; player_vel_x := v;
     player_vel_y := player_vel_y g; player_on_ground := player_on_ground g;
     camera_offset_x := camera_offset_x g; level_width := level_width g;
     platform_rects := platform_rects g; block_rects := block_rects g;
     coin_rects := coin_rects g; active_enemies := active_enemies g;
     active_enemies_id := active_enemies_id g; goal_rect := goal_rect g;
     spatial_grid := spatial_grid g |}.

Definition set_player_vel_y (v : Q) (g : Game) : Game :=
  {| game_state := game_state g; paused := paused g; paused_from_state :=
     paused_from_state g; smw_map_data := smw_map_data g;
     current_world_on_map := current_world_on_map g; current_node_on_map :=
     current_node_on_map g; ow_input_delay_timer := ow_input_delay_timer g;
     ow_input_cooldown := ow_input_cooldown g; current_level_spec :=
     current_level_spec g; score := score g; lives := lives g; time_left :=
     time_left g; player_state := player_state g; invincibility_timer :=
     invincibility_timer g; player_rect := player_rect g; player_vel_x :=
     player_vel_x g; player_vel_y := v; player_on_ground := player_on_ground
     g; camera_offset_x := camera_offset_x g; level_width := level_width g;
     platform_rects := platform_rects g; block_rects := block_rects g;
     coin_rects := coin_rects g; active_enemies := active_enemies g;
     active_enemies_id := active_enemies_id g; goal_rect := goal_rect g;
     spatial_grid := spatial_grid g |}.

Definition set_player_on_ground (v : bool) (g : Game) : Game :=
  {| game_state := game_state g; paused := paused g; paused_from_state :=
     paused_from_state g; smw_map_data := smw_map_data g;
     current_world_on_map := current_world_on_map g; current_node_on_map :=
     current_node_on_map g; ow_input_delay_timer := ow_input_delay_timer g;
     ow_input_cooldown := ow_input_cooldown g; current_level_spec :=
     current_level_spec g; score := score g; lives := lives g; time_left :=
     time_left g; player_state := player_state g; invincibility_timer :=
     invincibility_timer g; player_rect := player_rect g; player_vel_x :=
     player_vel_x g; player_vel_y := player_vel_y g; player_on_ground := v;
     camera_offset_x := camera_offset_x g; level_width := level_width g;
     platform_rects := platform_rects g; block_rects := block_rects g;
     coin_rects := coin_rects g; active_enemies := active_enemies g;
     active_enemies_id := active_enemies_id g; goal_rect := goal_rect g;
     spatial_grid := spatial_grid g |}.

Definition set_camera_offset_x (v : Z) (g : Game) : Game :=
  {| game_state := game_state g; paused := paused g; paused_from_state :=
     paused_from_state g; smw_map_data := smw_map_data g;
     current_world_on_map := current_world_on_map g; current_node_on_map :=
     current_node_on_map g; ow_input_delay_timer := ow_input_delay_timer g;
     ow_input_cooldown := ow_input_cooldown g; current_level_spec :=
     current_level_spec g; score := score g; lives := lives g; time_left :=
     time_left g; player_state := player_state g; invincibility_timer :=
     invincibility_timer g; player_rect := player_rect g; player_vel_x :=
     player_vel_x g; player_vel_y := player_vel_y g; player_on_ground :=
     player_on_ground g; camera_offset_x := v; level_width := level_width g;
     platform_rects := platform_rects g; block_rects := block_rects g;
     coin_rects := coin_rects g; active_enemies := active_enemies g;
     active_enemies_id := active_enemies_id g; goal_rect := goal_rect g;
     spatial_grid := spatial_grid g |}.

Definition set_level_width (v : Z) (g : Game) : Game :=
  {| game_state := game_state g; paused := paused g; paused_from_state :=
     paused_from_state g; smw_map_data := smw_map_data g;
     current_world_on_map := current_world_on_map g; current_node_on_map :=
     current_node_on_map g; ow_input_delay_timer := ow_input_delay_timer g;
     ow_input_cooldown := ow_input_cooldown g; current_level_spec :=
     current_level_spec g; score := score g; lives := lives g; time_left :=
     time_left g; player_state := player_state g; invincibility_timer :=
     invincibility_timer g; player_rect := player_rect g; player_vel_x :=
     player_vel_x g; player_vel_y := player_vel_y g; player_on_ground :=
     player_on_ground g; camera_offset_x := camera_offset_x g; level_width
     := v; platform_rects := platform_rects g; block_rects := block_rects g;
     coin_rects := coin_rects g; active_enemies := active_enemies g;
     active_enemies_id := active_enemies_id g; goal_rect := goal_rect g;
     spatial_grid := spatial_grid g |}.

Definition set_platform_rects (v : list Rect) (g : Game) : Game :=
  {| game_state := game_state g; paused := paused g; paused_from_state :=
     paused_from_state g; smw_map_data := smw_map_data g;
     current_world_on_map := current_world_on_map g; current_node_on_map :=
     current_node_on_map g; ow_input_delay_timer := ow_input_delay_timer g;
     ow_input_cooldown := ow_input_cooldown g; current_level_spec :=
     current_level_spec g; score := score g; lives := lives g; time_left :=
     time_left g; player_state := player_state g; invincibility_timer :=
     invincibility_timer g; player_rect := player_rect g; player_vel_x :=
     player_vel_x g; player_vel_y := player_vel_y g; player_on_ground :=
     player_on_ground g; camera_offset_x := camera_offset_x g; level_width
     := level_width g; platform_rects := v; block_rects := block_rects g;
     coin_rects := coin_rects g; active_enemies := active_enemies g;
     active_enemies_id := active_enemies_id g; goal_rect := goal_rect g;
     spatial_grid := spatial_grid g |}.

Definition set_block_rects (v : list Rect) (g : Game) : Game :=
  {| game_state := game_state g; paused := paused g; paused_from_state :=
     paused_from_state g; smw_map_data := smw_map_data g;
     current_world_on_map := current_world_on_map g; current_node_on_map :=
     current_node_on_map g; ow_input_delay_timer := ow_input_delay_timer g;
     ow_input_cooldown := ow_input_cooldown g; current_level_spec :=
     current_level_spec g; score := score g; lives := lives g; time_left :=
     time_left g; player_state := player_state g; invincibility_timer :=
     invincibility_timer g; player_rect := player_rect g; player_vel_x :=
     player_vel_x g; player_vel_y := player_vel_y g; player_on_ground :=
     player_on_ground g; camera_offset_x := camera_offset_x g; level_width
     := level_width g; platform_rects := platform_rects g; block_rects := v;
     coin_rects := coin_rects g; active_enemies := active_enemies g;
     active_enemies_id := active_enemies_id g; goal_rect := goal_rect g;
     spatial_grid := spatial_grid g |}.

Definition set_coin_rects (v : list Rect) (g : Game) : Game :=
  {| game_state := game_state g; paused := paused g; paused_from_state :=
     paused_from_state g; smw_map_data := smw_map_data g;
     current_world_on_map := current_world_on_map g; current_node_on_map :=
     current_node_on_map g; ow_input_delay_timer := ow_input_delay_timer g;
     ow_input_cooldown := ow_input_cooldown g; current_level_spec :=
     current_level_spec g; score := score g; lives := lives g; time_left :=
     time_left g; player_state := player_state g; invincibility_timer :=
     invincibility_timer g; player_rect := player_rect g; player_vel_x :=
     player_vel_x g; player_vel_y := player_vel_y g; player_on_ground :=
     player_on_ground g; camera_offset_x := camera_offset_x g; level_width
     := level_width g; platform_rects := platform_rects g; block_rects :=
     block_rects g; coin_rects := v; active_enemies := active_enemies g;
     active_enemies_id := active_enemies_id g; goal_rect := goal_rect g;
     spatial_grid := spatial_grid g |}.

Definition set_active_enemies (v : list Enemy) (g : Game) : Game :=
  {| game_state := game_state g; paused := paused g; paused_from_state :=
     paused_from_state g; smw_map_data := smw_map_data g;
     current_world_on_map := current_world_on_map g; current_node_on_map :=
     current_node_on_map g; ow_input_delay_timer := ow_input_delay_timer g;
     ow_input_cooldown := ow_input_cooldown g; current_level_spec :=
     current_level_spec g; score := score g; lives := lives g; time_left :=
     time_left g; player_state := player_state g; invincibility_timer :=
     invincibility_timer g; player_rect := player_rect g; player_vel_x :=
     player_vel_x g; player_vel_y := player_vel_y g; player_on_ground :=
     player_on_ground g; camera_offset_x := camera_offset_x g; level_width
     := level_width g; platform_rects := platform_rects g; block_rects :=
     block_rects g; coin_rects := coin_rects g; active_enemies := v;
     active_enemies_id := active_enemies_id g; goal_rect := goal_rect g;
     spatial_grid := spatial_grid g |}.

Definition set_active_enemies_id (v : nat) (g : Game) : Game :=
  {| game_state := game_state g; paused := paused g; paused_from_state :=
     paused_from_state g; smw_map_data := smw_map_data g;
     current_world_on_map := current_world_on_map g; current_node_on_map :=
     current_node_on_map g; ow_input_delay_timer := ow_input_delay_timer g;
     ow_input_cooldown := ow_input_cooldown g; current_level_spec :=
     current_level_spec g; score := score g; lives := lives g; time_left :=
     time_left g; player_state := player_state g; invincibility_timer :=
     invincibility_timer g; player_rect := player_rect g; player_vel_x :=
     player_vel_x g; player_vel_y := player_vel_y g; player_on_ground :=
     player_on_ground g; camera_offset_x := camera_offset_x g; level_width
     := level_width g; platform_rects := platform_rects g; block_rects :=
     block_rects g; coin_rects := coin_rects g; active_enemies :=
     active_enemies g; active_enemies_id := v; goal_rect := goal_rect g;
     spatial_grid := spatial_grid g |}.

Definition set_goal_rect (v : option Rect) (g : Game) : Game :=
  {| game_state := game_state g; paused := paused g; paused_from_state :=
     paused_from_state g; smw_map_data := smw_map_data g;
     current_world_on_map := current_world_on_map g; current_node_on_map :=
     current_node_on_map g; ow_input_delay_timer := ow_input_delay_timer g;
     ow_input_cooldown := ow_input_cooldown g; current_level_spec :=
     current_level_spec g; score := score g; lives := lives g; time_left :=
     time_left g; player_state := player_state g; invincibility_timer :=
     invincibility_timer g; player_rect := player_rect g; player_vel_x :=
     player_vel_x g; player_vel_y := player_vel_y g; player_on_ground :=
     player_on_ground g; camera_offset_x := camera_offset_x g; level_width
     := level_width g; platform_rects := platform_rects g; block_rects :=
     block_rects g; coin_rects := coin_rects g; active_enemies :=
     active_enemies g; active_enemies_id := active_enemies_id g; goal_rect
     := v; spatial_grid := spatial_grid g |}.

Definition set_spatial_grid (v : Grid Rect) (g : Game) : Game :=
  {| game_state := game_state g; paused := paused g; paused_from_state :=
     paused_from_state g; smw_map_data := smw_map_data g;
     current_world_on_map := current_world_on_map g; current_node_on_map :=
     current_node_on_map g; ow_input_delay_timer := ow_input_delay_timer g;
     ow_input_cooldown := ow_input_cooldown g; current_level_spec :=
     current_level_spec g; score := score g; lives := lives g; time_left :=
     time_left g; player_state := player_state g; invincibility_timer :=
     invincibility_timer g; player_rect := player_rect g; player_vel_x :=
     player_vel_x g; player_vel_y := player_vel_y g; player_on_ground :=
     player_on_ground g; camera_offset_x := camera_offset_x g; level_width
     := level_width g; platform_rects := platform_rects g; block_rects :=
     block_rects g; coin_rects := coin_rects g; active_enemies :=
     active_enemies g; active_enemies_id := active_enemies_id g; goal_rect
     := goal_rect g; spatial_grid := v |}.

(** ** Static data *)

Local Open Scope string_scope.

Definition plain_node (p id : Z * Z) (l : string) : Node := mkNode p id l None.
Definition typed_node (p id : Z * Z) (l t : string) : Node :=
  mkNode p id l (Some t).

Definition SMW_STYLE_MAP_DATA : list World := [
  mkWorld "Yoshi's Island" [
    plain_node (60, 300) (0, 0) "YI 1";
    plain_node (120, 270) (0, 1) "YI 2";
    typed_node (90, 220) (0, 2) "Ylw Switch" "switch";
    plain_node (180, 240) (0, 3) "YI 3";
    plain_node (240, 270) (0, 4) "YI 4";
    typed_node (300, 300) (0, 5) "#1 Iggy" "castle" ];
  mkWorld "Donut Plains" [
    plain_node (60, 180) (1, 0) "DP 1";
    plain_node (120, 150) (1, 1) "DP 2";
    typed_node (90, 100) (1, 2) "Grn Switch" "switch";
    plain_node (180, 120) (1, 3) "DP Secret";
    plain_node (240, 150) (1, 4) "DP 3";
    plain_node (300, 180) (1, 5) "DP 4";
    typed_node (360, 150) (1, 6) "DP Ghost" "ghost";
    typed_node (420, 180) (1, 7) "#2 Morton" "castle" ];
  mkWorld "Vanilla Dome" [
    plain_node (400, 80) (2, 0) "VD 1";
    plain_node (460, 50) (2, 1) "VD 2";
    typed_node (430, 120) (2, 2) "Red Switch" "switch";
    plain_node (520, 90) (2, 3) "VD 3";
    typed_node (580, 60) (2, 4) "VD Ghost" "ghost";
    typed_node (550, 130) (2, 5) "#3 Lemmy" "castle" ];
  mkWorld "Twin Bridges" [
    typed_node (80, 350) (3, 0) "V.Fortress" "fortress";
    plain_node (150, 320) (3, 1) "Cookie Mtn";
    plain_node (220, 350) (3, 2) "Butter Br 1";
    plain_node (290, 320) (3, 3) "Butter Br 2";
    plain_node (360, 350) (3, 4) "Cheese Br";
    typed_node (430, 320) (3, 5) "#4 Ludwig" "castle" ];
  mkWorld "Forest of Illusion" [
    plain_node (500, 250) (4, 0) "FoI 1";
    plain_node (560, 220) (4, 1) "FoI 2";
    typed_node (530, 170) (4, 2) "Blu Switch" "switch";
    plain_node (470, 190) (4, 3) "FoI 3";
    typed_node (540, 280) (4, 4) "FoI Ghost" "ghost";
    plain_node (590, 200) (4, 5) "FoI Secret";
    typed_node (500, 140) (4, 6) "#5 Roy" "castle" ];
  mkWorld "Chocolate Island" [
    plain_node (80, 50) (5, 0) "CI 1";
    plain_node (140, 80) (5, 1) "CI 2";
    plain_node (200, 50) (5, 2) "CI 3";
    typed_node (170, 110) (5, 3) "CI Ghost" "ghost";
    plain_node (260, 80) (5, 4) "CI Secret";
    typed_node (320, 50) (5, 5) "ChocoFort" "fortress";
    typed_node (290, 120) (5, 6) "#6 Wendy" "castle" ];
  mkWorld "Valley of Bowser" [
    plain_node (450, 350) (6, 0) "VB 1";
    plain_node (500, 320) (6, 1) "VB 2";
    typed_node (550, 350) (6, 2) "VB Ghost" "ghost";
    typed_node (500, 380) (6, 3) "VB Castle" "fortress";
    typed_node (580, 300) (6, 4) "Bowser's" "castle" ];
  mkWorld "Star World" [
    plain_node (100, 30) (7, 0) "SW 1";
    plain_node (180, 30) (7, 1) "SW 2";
    plain_node (260, 30) (7, 2) "SW 3";
    plain_node (340, 30) (7, 3) "SW 4";
    plain_node (420, 30) (7, 4) "SW 5" ];
  mkWorld "Special Zone" [
    plain_node (500, 30) (8, 0) "Gnarly";
    plain_node (500, 70) (8, 1) "Tubular";
    plain_node (500, 110) (8, 2) "WayCool";
    plain_node (500, 150) (8, 3) "Awesome";
    plain_node (500, 190) (8, 4) "Groovy";
    plain_node (500, 230) (8, 5) "Mondo";
    plain_node (500, 270) (8, 6) "Outrage";
    plain_node (500, 310) (8, 7) "Funky" ] ].

Definition sky : Z * Z * Z := (110, 180, 240).

Definition level_1_1 : LevelSpec :=
  mkLevelSpec "1-1"
    [(0, H - 32, W, 32); (W + 50, H - 32, W, 32)]
    [(6, 18); (7, 18); (12, 16); (25, 18)]
    [(10, 14); (14, 14); (27, 16)]
    [(200, H - 32 - 32, "goomba"); (380, H - 32 - 32, "koopa");
     (W + 100, H - 32 - 32, "goomba")]
    (W + W - 60, H - 64) sky.

Definition level_1_2 : LevelSpec :=
  mkLevelSpec "1-2"
    [(0, H - 32, W / 2, 32); (W / 2 + 100, H - 32, W / 2 - 100, 32);
     (W, H - 32, W, 32)]
    [(5, 17); (15, 15); (20, 13)]
    [(8, 15); (18, 13)]
    [(150, H - 32 - 32, "goomba"); (450, H - 32 - 32, "koopa")]
    (W + W - 60, H - 64) sky.

Definition level_1_3 : LevelSpec :=
  mkLevelSpec "1-3"
    [(0, H - 32, W, 32); (100, H - 96, 150, 32); (W, H - 32, W, 32)]
    [(8, 16); (9, 16); (10, 16)]
    [(12, 14); (13, 14)]
    [(250, H - 32 - 32, "goomba"); (350, H - 32 - 32, "koopa")]
    (W + W - 60, H - 64) sky.

Definition level_2_1 : LevelSpec :=
  mkLevelSpec "2-1"
    [(0, H - 32, W * 2, 32)]
    [(5, 18); (20, 17)]
    [(10, 16); (25, 15)]
    [(200, H - 32 - 32, "goomba")]
    (W * 2 - 60, H - 64) sky.

Definition level_map_config : gmap (Z * Z) LevelSpec :=
  <[(1, 0) := level_2_1]> (<[(0, 3) := level_1_3]>
  (<[(0, 1) := level_1_2]> (<[(0, 0) := level_1_1]> ∅))).

(** The module-level loop that fills [GAME_LEVEL_SPECS]: every node whose
    id has no authored level gets a placeholder.  The placeholder generator
    draws random numbers; [placeholder] stands for the outcome of its call
    on a node. *)
Definition populate_level_specs (placeholder : Z → Z → Node → LevelSpec)
  : gmap (Z * Z) LevelSpec :=
  foldl (fun m nd =>
           match m !! level_id nd with
           | Some _ => m
           | None => <[level_id nd := placeholder (level_id nd).1 (level_id nd).2 nd]> m
           end)
        level_map_config
        (w ← SMW_STYLE_MAP_DATA; nodes w).

Local Close Scope string_scope.

Definition player_sizes (s : PlayerState) : Z * Z :=
  match s with
  | small => (TILE, TILE + TILE / 2)
  | big => (TILE, TILE * 2)
  | fire => (TILE, TILE * 2)
  end.

(** ** Construction and mode changes *)

Definition load_overworld_state (g : Game) : Game :=
  set_paused false (set_game_state overworld g).

Definition _initialize_player_rect (g : Game) : Game :=
  let '(w, h) := player_sizes (player_state g) in
  set_player_rect (mkRect 50 (H - TILE * SCALE - h) w h) g.

(** [IntegratedGame.__init__] *)
Definition init_game : Game :=
  load_overworld_state (_initialize_player_rect
    {| game_state := overworld; paused := false; paused_from_state := overworld;
       smw_map_data := SMW_STYLE_MAP_DATA;
       current_world_on_map := 0; current_node_on_map := 0;
       ow_input_delay_timer := 0; ow_input_cooldown := (18 # 100)%Q;
       current_level_spec := None; score := 0; lives := 3; time_left := 300;
       player_state := small; invincibility_timer := 0;
       player_rect := mkRect 0 0 TILE (TILE + TILE / 2);
       player_vel_x := 0; player_vel_y := 0; player_on_ground := false;
       camera_offset_x := 0; level_width := W;
       platform_rects := []; block_rects := []; coin_rects := [];
       active_enemies := []; active_enemies_id := 0%nat; goal_rect := None;
       spatial_grid := new_grid (TILE * SCALE * 2) |}).

Definition set_player_level_state (new_char_state : PlayerState) (g : Game) : Game :=
  if bool_decide (player_state g = new_char_state) &&
     negb (bool_decide (R.size (player_rect g) = (0, 0)))
  then g
  else
    let old_midbottom :=
      if rw (player_rect g) =? 0 then (50, H - TILE * SCALE)
      else R.midbottom (player_rect g) in
    let g := set_player_state new_char_state g in
    let g := set_player_rect (R.set_size (player_sizes new_char_state) (player_rect g)) g in
    set_player_rect (R.set_midbottom old_midbottom (player_rect g)) g.

(** [max] of a non-empty list of integers. *)
Definition py_max (l : list Z) : Z :=
  match l with
  | [] => 0
  | x :: l' => foldl Z.max x l'
  end.

Definition rect_of_tuple (t : Z * Z * Z * Z) : Rect :=
  let '(x, y, w, h) := t in mkRect x y w h.

Definition block_rect_of (b : Z * Z) : Rect :=
  mkRect (b.1 * TILE * SCALE) (b.2 * TILE * SCALE) (TILE * SCALE) (TILE * SCALE).

Definition coin_rect_of (c : Z * Z) : Rect :=
  mkRect (c.1 * TILE * SCALE + (TILE * SCALE - TILE) / 2)
         (c.2 * TILE * SCALE + (TILE * SCALE - TILE) / 2) TILE TILE.

Definition spawn_enemy (d : Z * Z * string) : Enemy :=
  let '(ex, ey_bottom, etype) := d in
  let enemy_w := TILE * SCALE in
  let enemy_h := if String.eqb etype "goomba"%string then TILE * SCALE
                 else py_int (inject_Z (TILE * SCALE) * (15 # 10)) in
  let rect_y := H - TILE * SCALE - enemy_h in
  let rect := mkRect ex rect_y enemy_w enemy_h in
  let vel_x := if String.eqb etype "goomba"%string then (-1 # 1)%Q else (-15 # 10)%Q in
  mkEnemy rect etype vel_x (ry rect) walking 0.

Definition level_width_of (spec : LevelSpec) : Z :=
  match platforms spec with
  | [] => W
  | _ => Z.max W (py_max ((fun p => p.1.1.1 + p.1.2) <$> platforms spec))
  end.

Definition load_level_from_spec (spec : LevelSpec) (g : Game) : Game :=
  let g := set_game_state level g in
  let g := set_paused false g in
  let g := set_current_level_spec (Some spec) g in
  let g := set_time_left 300 g in
  let g := set_camera_offset_x 0 g in
  let g := set_level_width (level_width_of spec) g in
  let g := set_player_level_state small g in
  let g := set_player_rect
             (R.set_midbottom (TILE * SCALE * 2, H - TILE * SCALE) (player_rect g)) g in
  let g := set_player_vel_y 0 (set_player_vel_x 0 g) in
  let g := set_player_on_ground false g in
  let g := set_invincibility_timer 0 g in
  let g := set_platform_rects (rect_of_tuple <$> platforms spec) g in
  let g := set_block_rects (block_rect_of <$> blocks spec) g in
  let g := set_coin_rects (coin_rect_of <$> coins spec) g in
  let g := set_active_enemies_id (S (active_enemies_id g))
             (set_active_enemies (spawn_enemy <$> enemies spec) g) in
  let g := set_goal_rect
             (Some (mkRect (goal spec).1 (goal spec).2 (TILE * SCALE) (TILE * SCALE * 2))) g in
  set_spatial_grid
    (inserts (platform_rects g ++ block_rects g) (clear (spatial_grid g))) g.

(** ** Hurt, death and the end-of-level transitions *)

Definition game_over_transition (g : Game) : Game := set_game_state game_over g.

(** Python's [max(a, b)] on numbers: [b] only when it is strictly larger. *)
Definition py_max2 (a b : Q) : Q := if Qlt_bool a b then b else a.

Definition level_complete_transition (g : Game) : Game :=
  let g := set_game_state victory g in
  set_score (score g + py_int (py_max2 0 (time_left g)) * 10) g.

Definition handle_player_death (g : Game) : Game :=
  let g := set_lives (lives g - 1) g in
  if lives g <=? 0 then game_over_transition g
  else
    let g := set_invincibility_timer (FPS * 2) g in
    match current_level_spec g with
    | Some spec => load_level_from_spec spec g
    | None => load_overworld_state g
    end.

Definition handle_player_hurt (g : Game) : Game :=
  match player_state g with
  | big | fire =>
      let g := set_player_level_state small g in
      set_invincibility_timer (FPS * 2) g
  | small => handle_player_death g
  end.

(** ** Player against the level geometry *)

Inductive Direction : Type := horizontal | vertical.

(** The body of the loop of [handle_level_collisions] for one candidate. *)
Definition resolve_against (direction : Direction) (g : Game) (rect : Rect) : Game :=
  if R.colliderect (player_rect g) rect then
    match direction with
    | horizontal =>
        let g :=
          if Qlt_bool 0 (player_vel_x g) then
            set_player_rect (R.set_right (R.left rect) (player_rect g)) g
          else if Qlt_bool (player_vel_x g) 0 then
            set_player_rect (R.set_left (R.right rect) (player_rect g)) g
          else g in
        set_player_vel_x 0 g
    | vertical =>
        let g :=
          if Qlt_bool 0 (player_vel_y g) then
            set_player_on_ground true
              (set_player_rect (R.set_bottom (R.top rect) (player_rect g)) g)
          else if Qlt_bool (player_vel_y g) 0 then
            set_player_rect (R.set_top (R.bottom rect) (player_rect g)) g
          else g in
        set_player_vel_y 0 g
    end
  else g.

Definition handle_level_collisions (direction : Direction) (g : Game) : Game :=
  let collidables := query (spatial_grid g) (player_rect g) in
  foldl (resolve_against direction) g collidables.

(** ** Input *)

Inductive Key : Type :=
  K_LEFT | K_RIGHT | K_UP | K_DOWN | K_RETURN | K_SPACE | K_ESCAPE | K_p | K_other.

#[global] Instance Key_eq_dec : EqDecision Key.
Proof. solve_decision. Defined.

(** The snapshot returned by [pygame.key.get_pressed()]. *)
Definition Keys : Type := Key → bool.

Definition pressed (l : list Key) : Keys := fun k => bool_decide (k ∈ l).

Inductive Event : Type := QUIT | KEYDOWN (key : Key) | OTHER_EVENT.

(** A Python [for] loop whose body may raise. *)
Fixpoint py_for {S A : Type} (body : S → A → option S) (s : S) (l : list A)
  : option S :=
  match l with
  | [] => Some s
  | a :: l' => s' ← body s a; py_for body s' l'
  end.

(** ** One tick of level play *)

(** The first part of [update_level_gameplay]: input, gravity, the two
    axis moves with their collision passes, and the camera. *)
Definition move_player (keys : Keys) (dt : Q) (g : Game) : Game :=
  let g := set_player_vel_x 0 g in
  let g := if keys K_LEFT then set_player_vel_x (-300 * dt) g else g in
  let g := if keys K_RIGHT then set_player_vel_x (300 * dt) g else g in
  let g := if keys K_SPACE && player_on_ground g
           then set_player_on_ground false (set_player_vel_y JUMP_VEL g) else g in
  let g := set_player_vel_y (player_vel_y g + GRAVITY) g in
  let g := if Qlt_bool 15 (player_vel_y g) then set_player_vel_y 15 g else g in
  let g := set_player_rect (R.add_x (player_vel_x g) (player_rect g)) g in
  let g := handle_level_collisions horizontal g in
  let g := set_player_rect (R.add_y (player_vel_y g) (player_rect g)) g in
  let g := set_player_on_ground false g in
  let g := handle_level_collisions vertical g in
  let target_camera_x := R.centerx (player_rect g) - W / 2 in
  set_camera_offset_x (Z.max 0 (Z.min target_camera_x (level_width g - W))) g.

Definition set_e_rect (r : Rect) (e : Enemy) : Enemy :=
  mkEnemy r (e_type e) (e_vel_x e) (e_orig_y e) (e_state e) (e_vel_y e).
Definition set_e_vel_x (v : Q) (e : Enemy) : Enemy :=
  mkEnemy (e_rect e) (e_type e) v (e_orig_y e) (e_state e) (e_vel_y e).
Definition set_e_state (s : EnemyState) (e : Enemy) : Enemy :=
  mkEnemy (e_rect e) (e_type e) (e_vel_x e) (e_orig_y e) s (e_vel_y e).

(** The movement update of a walking enemy: the step and the turn at the
    level's left and right ends.  Level geometry is not consulted. *)
Definition enemy_move (dt : Q) (lw : Z) (e : Enemy) : Enemy :=
  let e := set_e_rect (R.add_x (e_vel_x e * 100 * dt) (e_rect e)) e in
  if (R.left (e_rect e) <? 0) || (lw <? R.right (e_rect e))
  then set_e_vel_x (e_vel_x e * -1) e else e.

Definition is_stomp (g : Game) (e : Enemy) : bool :=
  Qlt_bool 0 (player_vel_y g) && (R.bottom (player_rect g) <? R.centery (e_rect e)).

(** The enemy loop runs over a copy of [active_enemies].  The dict being
    visited is the element at position [pos] of [self.active_enemies] as
    long as that attribute is still bound to the list that was copied
    ([active_enemies_id] unchanged); its in-place updates are written
    there.  After a reload inside the loop the dict is no longer part of
    the game, and its updates are lost. *)
Definition write_enemy (id0 : nat) (pos : nat) (e : Enemy) (g : Game) : Game :=
  if decide (active_enemies_id g = id0)
  then set_active_enemies (<[pos := e]> (active_enemies g)) g
  else g.

(** What happens on an overlap of the player and a walking enemy. *)
Definition enemy_contact (id0 pos : nat) (e : Enemy) (g : Game) : Game :=
  if is_stomp g e then
    let g := write_enemy id0 pos (set_e_state stomped e) g in
    let g := set_player_vel_y (JUMP_VEL * (6 # 10)) g in
    set_score (score g + 100) g
  else if invincibility_timer g <=? 0 then handle_player_hurt g
  else g.

Definition visit_enemy (dt : Q) (id0 : nat) (st : Game * nat) (e : Enemy)
  : option (Game * nat) :=
  let '(g, pos) := st in
  match e_state e with
  | walking =>
      let e := enemy_move dt (level_width g) e in
      let g := write_enemy id0 pos e g in
      let g := if R.colliderect (player_rect g) (e_rect e)
               then enemy_contact id0 pos e g else g in
      Some (g, S pos)
  | stomped =>
      l ← py_remove enemy_eqb e (active_enemies g);
      Some (set_active_enemies l g, pos)
  end.

Definition update_enemies (dt : Q) (g : Game) : option Game :=
  fst <$> py_for (visit_enemy dt (active_enemies_id g)) (g, 0%nat) (active_enemies g).

Definition collect_coin (g : Game) (coin_rect : Rect) : option Game :=
  if R.colliderect (player_rect g) coin_rect then
    l ← py_remove rect_eqb coin_rect (coin_rects g);
    Some (set_score (score g + 50) (set_coin_rects l g))
  else Some g.

Definition collect_coins (g : Game) : option Game :=
  py_for collect_coin g (coin_rects g).

(** The state in which the goal is checked. *)
Definition before_goal_check (keys : Keys) (dt : Q) (g : Game) : option Game :=
  g ← update_enemies dt (move_player keys dt g); collect_coins g.

Definition goal_reached (g : Game) : bool :=
  match goal_rect g with
  | Some r => R.colliderect (player_rect g) r
  | None => false
  end.

(** The rest of the tick, run only when the goal was not reached. *)
Definition after_goal_check (dt : Q) (g : Game) : Game :=
  let g := if 0 <? invincibility_timer g
           then set_invincibility_timer (invincibility_timer g - 1) g else g in
  let g := set_time_left (time_left g - dt) g in
  let g := if Qle_bool (time_left g) 0 then handle_player_death g else g in
  if H <? R.top (player_rect g) then handle_player_death g else g.

Definition update_level_gameplay (keys : Keys) (dt : Q) (g : Game) : option Game :=
  match current_level_spec g with
  | None => Some g
  | Some _ =>
      g ← before_goal_check keys dt g;
      if goal_reached g then Some (level_complete_transition g)
      else Some (after_goal_check dt g)
  end.

(** ** Overworld navigation and the frame loop *)

Section Loop.
(** The table of level specifications as it stands after module
    initialisation. *)
Variable GAME_LEVEL_SPECS : gmap (Z * Z) LevelSpec.

Definition update_overworld_map_navigation (keys : Keys) (dt : Q) (g : Game)
  : option Game :=
  let g := set_ow_input_delay_timer (ow_input_delay_timer g - dt) g in
  if Qlt_bool 0 (ow_input_delay_timer g) then Some g
  else
    world ← py_index (smw_map_data g) (current_world_on_map g);
    let current_world_nodes := nodes world in
    let num_nodes_in_world := Z.of_nat (length current_world_nodes) in
    let num_worlds := Z.of_nat (length (smw_map_data g)) in
    r ← (if keys K_RIGHT then
           if num_nodes_in_world =? 0 then None
           else Some (set_current_node_on_map
                        ((current_node_on_map g + 1) `mod` num_nodes_in_world) g, true)
         else if keys K_LEFT then
           if num_nodes_in_world =? 0 then None
           else Some (set_current_node_on_map
                        ((current_node_on_map g - 1 + num_nodes_in_world)
                           `mod` num_nodes_in_world) g, true)
         else if keys K_UP then
           Some (set_current_node_on_map 0
                   (set_current_world_on_map
                      ((current_world_on_map g + 1) `mod` num_worlds) g), true)
         else if keys K_DOWN then
           Some (set_current_node_on_map 0
                   (set_current_world_on_map
                      ((current_world_on_map g - 1 + num_worlds) `mod` num_worlds) g), true)
         else if keys K_RETURN || keys K_SPACE then
           selected_node_data ← py_index current_world_nodes (current_node_on_map g);
           match GAME_LEVEL_SPECS !! level_id selected_node_data with
           | Some spec => Some (load_level_from_spec spec g, true)
           | None => Some (g, true)
           end
         else Some (g, false));
    let '(g, moved) := r in
    Some (if moved : bool then set_ow_input_delay_timer (ow_input_cooldown g) g else g).

(** One event of the event loop; [None] is the [return] that ends
    [run_game_loop]. *)
Definition handle_event (g : Game) (event : Event) : option Game :=
  match event with
  | QUIT => None
  | OTHER_EVENT => Some g
  | KEYDOWN key =>
      g ← (if bool_decide (key = K_ESCAPE) then
             match game_state g with
             | level => Some (load_overworld_state g)
             | overworld => None
             | game_over | victory => Some (load_overworld_state g)
             end
           else Some g);
      let g :=
        if bool_decide (key = K_p) then
          match game_state g with
          | game_over | victory => g
          | _ =>
              let g := set_paused (negb (paused g)) g in
              if paused g then set_paused_from_state (game_state g) g
              else set_game_state (paused_from_state g) g
          end
        else g in
      let g :=
        if bool_decide (game_state g = game_over) && bool_decide (key = K_RETURN)
        then load_overworld_state (set_lives 3 (set_score 0 g)) else g in
      let g :=
        if bool_decide (game_state g = victory) && bool_decide (key = K_RETURN)
        then load_overworld_state g else g in
      Some g
  end.

Fixpoint handle_events (g : Game) (events : list Event) : option Game :=
  match events with
  | [] => Some g
  | ev :: rest => g ← handle_event g ev; handle_events g rest
  end.

(** The update part of a frame, after the events were handled. *)
Definition dispatch (keys : Keys) (dt : Q) (g : Game) : option Game :=
  if paused g then Some g
  else
    match game_state g with
    | overworld => update_overworld_map_navigation keys dt g
    | level =>
        match current_level_spec g with
        | Some _ => update_level_gameplay keys dt g
        | None => Some (load_overworld_state g)
        end
    | game_over | victory => Some g
    end.

Inductive Outcome : Type :=
| Running (g : Game)   (* the loop goes on with this state *)
| Exited               (* the loop returned *)
| Crashed.             (* an exception left the loop *)

(** One iteration of the [while running] loop. *)
Definition frame (g : Game) (events : list Event) (keys : Keys) (dt : Q) : Outcome :=
  match handle_events g events with
  | None => Exited
  | Some g =>
      match dispatch keys dt g with
      | Some g => Running g
      | None => Crashed
      end
  end.

(** Several iterations in a row, each with its events, key snapshot and
    elapsed time. *)
Fixpoint run_frames (g : Game) (inputs : list (list Event * Keys * Q)) : Outcome :=
  match inputs with
  | [] => Running g
  | (events, keys, dt) :: rest =>
      match frame g events keys dt with
      | Running g => run_frames g rest
      | Exited => Exited
      | Crashed => Crashed
      end
  end.

(** The states the loop can be in at the start of an iteration. *)
Inductive reachable : Game → Prop :=
| reach_init : reachable init_game
| reach_frame g events keys dt g' :
    reachable g → frame g events keys dt = Running g' → reachable g'.
End Loop.

(** One possible outcome of the placeholder generator, used for concrete
    runs: the extended ground, five blocks, eight coins and two enemies,
    all within the generator's ranges. *)
Definition sample_placeholder (world_idx node_idx : Z) (node_data : Node) : LevelSpec :=
  mkLevelSpec (label node_data)
    [(0, H - TILE * SCALE, W * 2, TILE * SCALE)]
    [(5, 7); (6, 7); (9, 4); (14, 5); (20, 3)]
    [(5, 5); (7, 4); (9, 2); (12, 5); (15, 0); (18, 3); (22, 1); (30, 5)]
    [(400, H - TILE * SCALE - TILE * SCALE, "goomba"%string);
     (900, H - TILE * SCALE - (TILE * SCALE + TILE / 2 * SCALE), "koopa"%string)]
    (W * 2 - TILE * SCALE * 3, H - TILE * SCALE * 3) sky.

Definition sample_level_specs : gmap (Z * Z) LevelSpec :=
  populate_level_specs sample_placeholder.

(** A frame at 60 frames per second: [clock.tick] reports 16 ms. *)
Definition DT : Q := (16 # 1000)%Q.

(** [n] ticks of level play with the same input. *)
Fixpoint ticks (n : nat) (keys : Keys) (dt : Q) (g : Game) : option Game :=
  match n with
  | O => Some g
  | S n => g ← update_level_gameplay keys dt g; ticks n keys dt g
  end.

(** The session fields a pause must leave alone. *)
Definition same_session (g g' : Game) : Prop :=
  game_state g' = game_state g ∧ score g' = score g ∧ lives g' = lives g ∧
  time_left g' = time_left g ∧
  current_world_on_map g' = current_world_on_map g ∧
  current_node_on_map g' = current_node_on_map g ∧
  player_rect g' = player_rect g ∧
  player_vel_x g' = player_vel_x g ∧ player_vel_y g' = player_vel_y g.

(** The velocity component a collision pass looks at. *)
Definition axis_vel (d : Direction) (g : Game) : Q :=
  match d with
  | horizontal => player_vel_x g
  | vertical => player_vel_y g
  end.

(** What a level must be to be played: a positive time and a loaded
    specification.  [loop_inv] holds of every state of the frame loop. *)
Definition level_ok (g : Game) : Prop :=
  (0 < time_left g)%Q ∧ is_Some (current_level_spec g).

Definition loop_inv (g : Game) : Prop :=
  (game_state g = level → level_ok g) ∧
  (paused g = true → paused_from_state g = level → level_ok g).

(** * Properties *)

(** ** Rectangles *)

Lemma colliderect_valid (a b : Rect) :
  R.valid a → R.valid b →
  R.colliderect a b = true ↔
  R.left a < R.right b ∧ R.top a < R.bottom b ∧
  R.left b < R.right a ∧ R.top b < R.bottom a.
Proof.
  intros [Haw Hah] [Hbw Hbh].
  unfold R.colliderect, R.left, R.right, R.top, R.bottom.
  destruct (rw a =? 0) eqn:E1; [apply Z.eqb_eq in E1; lia|].
  destruct (rh a =? 0) eqn:E2; [apply Z.eqb_eq in E2; lia|].
  destruct (rw b =? 0) eqn:E3; [apply Z.eqb_eq in E3; lia|].
  destruct (rh b =? 0) eqn:E4; [apply Z.eqb_eq in E4; lia|].
  cbn [orb].
  rewrite !andb_true_iff, !Z.ltb_lt. lia.
Qed.

Lemma r_tuple_inj (a b : Rect) : R.r_tuple a = R.r_tuple b → a = b.
Proof. destruct a, b; unfold R.r_tuple; simpl; congruence. Qed.

(** ** The spatial grid *)

Section GridFacts.
Context {A : Type} `{HasRect A}.
Implicit Types (g : Grid A) (a : A) (c : Z * Z) (m : gmap (Z * Z) (list A)).

Lemma elem_of_py_range (lo hi x : Z) : x ∈ py_range lo hi ↔ lo ≤ x < hi.
Proof. unfold py_range. rewrite elem_of_seqZ. lia. Qed.

Lemma elem_of_cell_range cs r c :
  c ∈ cell_range cs r ↔
  R.left r / cs ≤ c.1 ≤ R.right r / cs ∧ R.top r / cs ≤ c.2 ≤ R.bottom r / cs.
Proof.
  unfold cell_range. destruct c as [cx cy]; simpl.
  rewrite list_elem_of_bind. split.
  - intros (x & Hin & Hx). apply list_elem_of_bind in Hin as (y & Hin & Hy).
    apply list_elem_of_singleton in Hin. injection Hin as -> ->.
    apply elem_of_py_range in Hx, Hy. lia.
  - intros [Hx Hy]. exists cx. split.
    + apply list_elem_of_bind. exists cy. split; [apply list_elem_of_singleton; done|].
      apply elem_of_py_range. lia.
    + apply elem_of_py_range. lia.
Qed.

Lemma bucket_append_mono a m c' c x :
  in_bucket m c x → in_bucket (bucket_append a m c') c x.
Proof.
  unfold in_bucket, bucket_append. intros Hx.
  destruct (decide (c' = c)) as [->|Hne].
  - rewrite lookup_insert_eq. simpl. apply elem_of_app. by left.
  - by rewrite lookup_insert_ne.
Qed.

Lemma bucket_append_here a m c : in_bucket (bucket_append a m c) c a.
Proof.
  unfold in_bucket, bucket_append. rewrite lookup_insert_eq. simpl.
  apply elem_of_app. right. apply list_elem_of_singleton. done.
Qed.

Lemma bucket_append_inv a m c' c x :
  in_bucket (bucket_append a m c') c x → in_bucket m c x ∨ (x = a ∧ c = c').
Proof.
  unfold in_bucket, bucket_append.
  destruct (decide (c' = c)) as [->|Hne].
  - rewrite lookup_insert_eq. simpl. intros [Hx|Hx]%elem_of_app; [by left|].
    apply list_elem_of_singleton in Hx. by right.
  - rewrite lookup_insert_ne by done. by left.
Qed.

Lemma foldl_bucket_append_mono a l m c x :
  in_bucket m c x → in_bucket (foldl (bucket_append a) m l) c x.
Proof.
  revert m. induction l as [|c' l IH]; intros m Hx; simpl; [done|].
  apply IH. by apply bucket_append_mono.
Qed.

Lemma foldl_bucket_append_here a l m c :
  c ∈ l → in_bucket (foldl (bucket_append a) m l) c a.
Proof.
  revert m. induction l as [|c' l IH]; intros m Hc; simpl.
  - by apply not_elem_of_nil in Hc.
  - apply elem_of_cons in Hc as [->|Hc].
    + apply foldl_bucket_append_mono, bucket_append_here.
    + by apply IH.
Qed.

Lemma foldl_bucket_append_inv a l m c x :
  in_bucket (foldl (bucket_append a) m l) c x → in_bucket m c x ∨ (x = a ∧ c ∈ l).
Proof.
  revert m. induction l as [|c' l IH]; intros m Hx; simpl in *; [by left|].
  apply IH in Hx as [Hx|[-> Hc]].
  - apply bucket_append_inv in Hx as [Hx|[-> ->]]; [by left|].
    right. split; [done|]. apply elem_of_cons. by left.
  - right. split; [done|]. apply elem_of_cons. by right.
Qed.

Lemma cell_size_insert_rect a g : cell_size (insert_rect a g) = cell_size g.
Proof. reflexivity. Qed.

Lemma inserts_cons a l g : inserts (a :: l) g = inserts l (insert_rect a g).
Proof. reflexivity. Qed.

Lemma cell_size_inserts l g : cell_size (inserts l g) = cell_size g.
Proof.
  revert g. induction l as [|a l IH]; intros g; [done|].
  by rewrite inserts_cons, IH.
Qed.

Lemma insert_rect_mono a g c x :
  in_bucket (cells g) c x → in_bucket (cells (insert_rect a g)) c x.
Proof. apply foldl_bucket_append_mono. Qed.

Lemma inserts_mono l g c x :
  in_bucket (cells g) c x → in_bucket (cells (inserts l g)) c x.
Proof.
  revert g. induction l as [|a l IH]; intros g Hx; [done|].
  rewrite inserts_cons. by apply IH, insert_rect_mono.
Qed.

(** Every inserted rectangle sits in every bucket of its cell range. *)
Lemma inserts_here l g a c :
  a ∈ l → c ∈ cell_range (cell_size g) (rect_of a) →
  in_bucket (cells (inserts l g)) c a.
Proof.
  revert g. induction l as [|b l IH]; intros g Ha Hc.
  - by apply not_elem_of_nil in Ha.
  - rewrite inserts_cons. apply elem_of_cons in Ha as [->|Ha].
    + apply inserts_mono. by apply foldl_bucket_append_here.
    + by apply IH.
Qed.

(** And the buckets hold nothing but inserted rectangles. *)
Lemma inserts_inv l g c x :
  in_bucket (cells (inserts l g)) c x →
  in_bucket (cells g) c x ∨ x ∈ l.
Proof.
  revert g. induction l as [|b l IH]; intros g Hx; [by left|].
  rewrite inserts_cons in Hx. apply IH in Hx as [Hx|Hx].
  - apply foldl_bucket_append_inv in Hx as [Hx|[-> _]]; [by left|].
    right. apply elem_of_cons. by left.
  - right. apply elem_of_cons. by right.
Qed.

Lemma in_bucket_clear g c x : ¬ in_bucket (cells (clear g)) c x.
Proof. unfold in_bucket. simpl. rewrite lookup_empty. simpl. apply not_elem_of_nil. Qed.

Lemma elem_of_bucket_scan g q a :
  a ∈ bucket_scan g q ↔ ∃ c, c ∈ cell_range (cell_size g) q ∧ in_bucket (cells g) c a.
Proof.
  unfold bucket_scan, in_bucket. rewrite list_elem_of_bind.
  split; intros (c & H1 & H2); exists c; done.
Qed.

Lemma seen_ok_init : seen_ok (∅, []).
Proof.
  split; simpl.
  - intros t. split; [set_solver|]. intros (a & Ha & _). by apply not_elem_of_nil in Ha.
  - constructor.
Qed.

Lemma query_step_ok acc a : seen_ok acc → seen_ok (query_step acc a).
Proof.
  intros [Hs Hn]. unfold query_step. case_decide as Hin; [done|].
  split; simpl.
  - intros t. rewrite elem_of_union, elem_of_singleton, Hs. split.
    + intros [->|(b & Hb & Ht)].
      * exists a. split; [|done]. apply elem_of_app. right. by apply list_elem_of_singleton.
      * exists b. split; [|done]. apply elem_of_app. by left.
    + intros (b & [Hb|Hb]%elem_of_app & Ht).
      * right. by exists b.
      * apply list_elem_of_singleton in Hb as ->. by left.
  - rewrite fmap_app. apply NoDup_app. split; [done|]. split.
    + intros t Ht Ht'. simpl in Ht'. apply list_elem_of_singleton in Ht' as ->.
      apply Hin, Hs. apply list_elem_of_fmap in Ht as (b & Hb1 & Hb2). by exists b.
    + simpl. apply NoDup_singleton.
Qed.

Lemma query_step_grow acc a b :
  b ∈ acc.2 → b ∈ (query_step acc a).2.
Proof.
  unfold query_step. case_decide; [done|]. simpl. intros Hb. apply elem_of_app. by left.
Qed.

Lemma query_step_from acc a b :
  b ∈ (query_step acc a).2 → b ∈ acc.2 ∨ b = a.
Proof.
  unfold query_step. case_decide; [by left|]. simpl.
  intros [Hb|Hb]%elem_of_app; [by left|]. apply list_elem_of_singleton in Hb. by right.
Qed.

Lemma query_step_seen acc a :
  seen_ok acc → ∃ b, b ∈ (query_step acc a).2 ∧ rect_of b = rect_of a.
Proof.
  intros [Hs _]. unfold query_step. case_decide as Hin.
  - apply Hs in Hin as (b & Hb & Ht). exists b. split; [done|]. by apply r_tuple_inj.
  - exists a. split; [|done]. simpl. apply elem_of_app. right. by apply list_elem_of_singleton.
Qed.

Lemma foldl_query_step_ok l acc : seen_ok acc → seen_ok (foldl query_step acc l).
Proof.
  revert acc. induction l as [|a l IH]; intros acc Hok; simpl; [done|].
  apply IH. by apply query_step_ok.
Qed.

Lemma foldl_query_step_grow l acc b :
  b ∈ acc.2 → b ∈ (foldl query_step acc l).2.
Proof.
  revert acc. induction l as [|a l IH]; intros acc Hb; simpl; [done|].
  apply IH. by apply query_step_grow.
Qed.

Lemma foldl_query_step_from l acc b :
  b ∈ (foldl query_step acc l).2 → b ∈ acc.2 ∨ b ∈ l.
Proof.
  revert acc. induction l as [|a l IH]; intros acc Hb; simpl in *; [by left|].
  apply IH in Hb as [Hb|Hb].
  - apply query_step_from in Hb as [Hb| ->]; [by left|]. right. apply elem_of_cons. by left.
  - right. apply elem_of_cons. by right.
Qed.

Lemma foldl_query_step_covers l acc a :
  seen_ok acc → a ∈ l → ∃ b, b ∈ (foldl query_step acc l).2 ∧ rect_of b = rect_of a.
Proof.
  revert acc. induction l as [|x l IH]; intros acc Hok Ha; simpl.
  - by apply not_elem_of_nil in Ha.
  - apply elem_of_cons in Ha as [->|Ha].
    + destruct (query_step_seen acc x Hok) as (b & Hb & Hr).
      exists b. split; [|done]. by apply foldl_query_step_grow.
    + apply IH; [|done]. by apply query_step_ok.
Qed.

(** The three facts about [query] everything else uses. *)
Lemma query_NoDup g q : NoDup ((fun a => R.r_tuple (rect_of a)) <$> query g q).
Proof. unfold query. apply (foldl_query_step_ok _ _ seen_ok_init). Qed.

Lemma query_sound g q a : a ∈ query g q → a ∈ bucket_scan g q.
Proof.
  unfold query. intros Ha. apply foldl_query_step_from in Ha as [Ha|Ha]; [|done].
  simpl in Ha. by apply not_elem_of_nil in Ha.
Qed.

Lemma query_covers g q a :
  a ∈ bucket_scan g q → ∃ b, b ∈ query g q ∧ rect_of b = rect_of a.
Proof. unfold query. intros Ha. by apply foldl_query_step_covers; [apply seen_ok_init|]. Qed.

(** Two overlapping rectangles of positive size share a cell. *)
Lemma overlap_shares_cell cs (q r : Rect) :
  0 < cs → R.valid q → R.valid r → R.colliderect q r = true →
  ∃ c, c ∈ cell_range cs q ∧ c ∈ cell_range cs r.
Proof.
  intros Hcs Hq Hr Hc. apply colliderect_valid in Hc; [|done..].
  destruct Hq as [Hqw Hqh], Hr as [Hrw Hrh].
  unfold R.left, R.right, R.top, R.bottom in Hc.
  exists (Z.max (R.left q / cs) (R.left r / cs), Z.max (R.top q / cs) (R.top r / cs)).
  rewrite !elem_of_cell_range. unfold R.left, R.right, R.top, R.bottom. simpl.
  assert (Hm : ∀ u v : Z, u ≤ v → u / cs ≤ v / cs) by (intros; apply Z.div_le_mono; lia).
  pose proof (Hm (rx q) (rx q + rw q)). pose proof (Hm (rx r) (rx r + rw r)).
  pose proof (Hm (ry q) (ry q + rh q)). pose proof (Hm (ry r) (ry r + rh r)).
  pose proof (Hm (rx q) (rx r + rw r)). pose proof (Hm (rx r) (rx q + rw q)).
  pose proof (Hm (ry q) (ry r + rh r)). pose proof (Hm (ry r) (ry q + rh q)).
  lia.
Qed.
End GridFacts.

(** ** Claims about the grid *)

(** The loop of [query] over the scanned list [l], started after the
    prefix [p]: the bounds of everything scanned are in [seen], and every
    collected rectangle stands in the scanned list before any other
    rectangle with its bounds. *)
Lemma foldl_query_step_first {A : Type} `{HasRect A}
    (l p : list A) (acc : gset (Z * Z * Z * Z) * list A) :
  (∀ x, x ∈ p → R.r_tuple (rect_of x) ∈ acc.1) →
  (∀ b, b ∈ acc.2 →
        ∃ l1 l2, p = l1 ++ b :: l2 ∧
                 ∀ x, x ∈ l1 → R.r_tuple (rect_of x) ≠ R.r_tuple (rect_of b)) →
  (∀ x, x ∈ p ++ l → R.r_tuple (rect_of x) ∈ (foldl query_step acc l).1) ∧
  (∀ b, b ∈ (foldl query_step acc l).2 →
        ∃ l1 l2, p ++ l = l1 ++ b :: l2 ∧
                 ∀ x, x ∈ l1 → R.r_tuple (rect_of x) ≠ R.r_tuple (rect_of b)).
Proof.
  revert p acc. induction l as [|a l IH]; intros p acc Hseen Hfirst.
  - rewrite app_nil_r. by split.
  - replace (p ++ a :: l) with ((p ++ [a]) ++ l)
      by (rewrite <- app_assoc; reflexivity).
    cbn [foldl]. apply IH.
    + intros x Hx. unfold query_step. apply elem_of_app in Hx as [Hx|Hx].
      * case_decide; [by apply Hseen|]. cbn [fst].
        apply elem_of_union. right. by apply Hseen.
      * apply list_elem_of_singleton in Hx as ->.
        case_decide; [done|]. cbn [fst].
        apply elem_of_union. left. by apply elem_of_singleton.
    + intros b Hb. unfold query_step in Hb.
      assert (Hold : b ∈ acc.2 →
                ∃ l1 l2, p ++ [a] = l1 ++ b :: l2 ∧
                  ∀ x, x ∈ l1 → R.r_tuple (rect_of x) ≠ R.r_tuple (rect_of b)).
      { intros Hin. destruct (Hfirst b Hin) as (l1 & l2 & -> & Hl1).
        exists l1, (l2 ++ [a]). split; [|exact Hl1].
        rewrite <- app_assoc. reflexivity. }
      case_decide as Hin; [by apply Hold|]. cbn [snd] in Hb.
      apply elem_of_app in Hb as [Hb|Hb]; [by apply Hold|].
      apply list_elem_of_singleton in Hb as ->.
      exists p, []. split; [reflexivity|].
      intros x Hx Heq. apply Hin. rewrite <- Heq. by apply Hseen.
Qed.

(** C8 (as the code has it): [Grid.query] returns at most one rectangle
    per bounds tuple (x, y, width, height): every returned rectangle comes
    from a scanned bucket, no two returned rectangles have the same bounds,
    and every scanned rectangle is represented by a returned one with its
    bounds.  Deduplication is by value, not by identity, and of several
    scanned rectangles with the same bounds the first one scanned is the
    one returned: a returned rectangle stands in the scanned list at a
    place before which no rectangle has its bounds. *)
Theorem query_one_per_bounds {A : Type} `{HasRect A} (g : Grid A) (q : Rect) :
  NoDup ((fun a => R.r_tuple (rect_of a)) <$> query g q) ∧
  (∀ a, a ∈ query g q → a ∈ bucket_scan g q) ∧
  (∀ a, a ∈ bucket_scan g q → ∃ b, b ∈ query g q ∧ rect_of b = rect_of a) ∧
  (∀ b, b ∈ query g q →
        ∃ l1 l2, bucket_scan g q = l1 ++ b :: l2 ∧
                 ∀ a, a ∈ l1 → R.r_tuple (rect_of a) ≠ R.r_tuple (rect_of b)).
Proof.
  split; [apply query_NoDup|]. split; [apply query_sound|].
  split; [apply query_covers|].
  intros b Hb. unfold query in Hb.
  destruct (foldl_query_step_first (bucket_scan g q) [] (∅, [])) as [_ Hfirst].
  - intros x Hx. by apply not_elem_of_nil in Hx.
  - intros x Hx. by apply not_elem_of_nil in Hx.
  - exact (Hfirst b Hb).
Qed.

(** C8 as stated fails: two distinct rectangle objects with the same
    bounds, both inserted and both in the scanned cell, yet the query
    returns the first only. *)
Lemma query_drops_equal_bounds_twin :
  let o0 := mkObj 0 (mkRect 0 0 10 10) in
  let o1 := mkObj 1 (mkRect 0 0 10 10) in
  let g := inserts [o0; o1] (new_grid 64) in
  let q := mkRect 0 0 10 10 in
  o0 ≠ o1 ∧ bucket_scan g q = [o0; o1] ∧ query g q = [o0] ∧ o1 ∉ query g q.
Proof.
  cbv zeta. split; [discriminate|].
  split; [vm_compute; reflexivity|].
  assert (Hq : query (inserts [mkObj 0 (mkRect 0 0 10 10); mkObj 1 (mkRect 0 0 10 10)]
                        (new_grid 64)) (mkRect 0 0 10 10) = [mkObj 0 (mkRect 0 0 10 10)])
    by (vm_compute; reflexivity).
  split; [exact Hq|]. rewrite Hq. intros Hin.
  apply list_elem_of_singleton in Hin. discriminate.
Qed.

(** C10: broad-phase completeness.  For every rectangle inserted since
    the last [clear] and every query rectangle overlapping it (both of
    positive size, as the data model requires, and a positive cell size),
    the query returns a rectangle with the bounds of the inserted one. *)
Theorem query_complete {A : Type} `{HasRect A}
    (g0 : Grid A) (l : list A) (a : A) (q : Rect) :
  0 < cell_size g0 → a ∈ l → R.valid (rect_of a) → R.valid q →
  R.colliderect q (rect_of a) = true →
  ∃ b, b ∈ query (inserts l (clear g0)) q ∧ rect_of b = rect_of a.
Proof.
  intros Hcs Ha Hva Hvq Hc.
  destruct (overlap_shares_cell (cell_size g0) q (rect_of a) Hcs Hvq Hva Hc)
    as (c & Hcq & Hca).
  apply query_covers, elem_of_bucket_scan. exists c.
  rewrite cell_size_inserts. split; [exact Hcq|].
  apply inserts_here; [exact Ha|exact Hca].
Qed.

Lemma query_complete_witness :
  ∃ b, b ∈ query (inserts [mkRect 0 368 640 32; mkRect 160 224 32 32]
                          (clear (new_grid 64))) (mkRect 150 210 16 24)
       ∧ rect_of b = rect_of (mkRect 160 224 32 32).
Proof.
  apply (query_complete (new_grid 64) [mkRect 0 368 640 32; mkRect 160 224 32 32]
           (mkRect 160 224 32 32) (mkRect 150 210 16 24)).
  - simpl. lia.
  - apply elem_of_cons. right. apply elem_of_cons. left. reflexivity.
  - unfold R.valid. simpl. lia.
  - unfold R.valid. simpl. lia.
  - reflexivity.
Defined.

(** ** Reloading a level *)

(** [set_player_level_state] touches the player's state and rectangle
    only. *)
Lemma spls_small_fields (g : Game) :
  set_player_level_state small g =
  set_player_rect (player_rect (set_player_level_state small g))
    (set_player_state small g).
Proof.
  unfold set_player_level_state.
  destruct (bool_decide (player_state g = small) &&
            negb (bool_decide (R.size (player_rect g) = (0, 0)))) eqn:E.
  - apply andb_true_iff in E as [E _]. apply bool_decide_eq_true in E.
    destruct g; cbn in *; subst; reflexivity.
  - reflexivity.
Qed.

Lemma spls_rect_ext (s : PlayerState) (g1 g2 : Game) :
  player_state g1 = player_state g2 → player_rect g1 = player_rect g2 →
  player_rect (set_player_level_state s g1) = player_rect (set_player_level_state s g2).
Proof.
  intros Hs Hr. unfold set_player_level_state. rewrite Hs, Hr.
  destruct (_ && _); [exact Hr|]. cbn. rewrite Hr. reflexivity.
Qed.

Lemma load_level_record (spec : LevelSpec) (g : Game) :
  load_level_from_spec spec g =
  {| game_state := level; paused := false;
     paused_from_state := paused_from_state g;
     smw_map_data := smw_map_data g;
     current_world_on_map := current_world_on_map g;
     current_node_on_map := current_node_on_map g;
     ow_input_delay_timer := ow_input_delay_timer g;
     ow_input_cooldown := ow_input_cooldown g;
     current_level_spec := Some spec; score := score g; lives := lives g;
     time_left := 300; player_state := small; invincibility_timer := 0;
     player_rect := R.set_midbottom (TILE * SCALE * 2, H - TILE * SCALE)
                      (player_rect (set_player_level_state small g));
     player_vel_x := 0; player_vel_y := 0; player_on_ground := false;
     camera_offset_x := 0; level_width := level_width_of spec;
     platform_rects := rect_of_tuple <$> platforms spec;
     block_rects := block_rect_of <$> blocks spec;
     coin_rects := coin_rect_of <$> coins spec;
     active_enemies := spawn_enemy <$> enemies spec;
     active_enemies_id := S (active_enemies_id g);
     goal_rect := Some (mkRect (goal spec).1 (goal spec).2 (TILE * SCALE) (TILE * SCALE * 2));
     spatial_grid := inserts ((rect_of_tuple <$> platforms spec) ++
                              (block_rect_of <$> blocks spec))
                             (clear (spatial_grid g)) |}.
Proof.
  unfold load_level_from_spec. cbv zeta.
  set (G0 := set_level_width _ _).
  assert (HX : player_rect (set_player_level_state small G0) =
               player_rect (set_player_level_state small g))
    by (apply spls_rect_ext; reflexivity).
  rewrite (spls_small_fields G0). rewrite HX. reflexivity.
Qed.


Lemma midbottom_set_midbottom (p : Z * Z) (r : Rect) :
  R.midbottom (R.set_midbottom p r) = p.
Proof.
  destruct p as [a b]. unfold R.midbottom, R.set_midbottom, R.centerx, R.bottom.
  simpl. f_equal; lia.
Qed.

(** C9: reloading a level from its definition gives the same platform,
    block and coin rectangles and goal whatever the state it is loaded
    into, leaves score and lives as they were, and puts the player at the
    start position (midbottom (64, 368)) with [on_ground] false. *)
Theorem reload_same_geometry (spec : LevelSpec) (g g' : Game) :
  let r := load_level_from_spec spec g in
  let r' := load_level_from_spec spec g' in
  platform_rects r = platform_rects r' ∧ block_rects r = block_rects r' ∧
  coin_rects r = coin_rects r' ∧ goal_rect r = goal_rect r' ∧
  active_enemies r = active_enemies r' ∧
  score r = score g ∧ lives r = lives g ∧
  R.midbottom (player_rect r) = (TILE * SCALE * 2, H - TILE * SCALE) ∧
  player_on_ground r = false.
Proof.
  cbv zeta. rewrite !load_level_record. cbn [platform_rects block_rects
    coin_rects goal_rect active_enemies score lives player_rect player_on_ground].
  repeat split. apply midbottom_set_midbottom.
Qed.

(** ** Rationals *)

Lemma Qlt_bool_iff (a b : Q) : Qlt_bool a b = true ↔ (a < b)%Q.
Proof.
  unfold Qlt_bool. rewrite negb_true_iff. split.
  - intros Hf. apply Qnot_le_lt. intros Hle.
    apply Qle_bool_iff in Hle. congruence.
  - intros Hlt. destruct (Qle_bool b a) eqn:E; [|reflexivity].
    apply Qle_bool_iff in E. exfalso. exact (Qlt_not_le _ _ Hlt E).
Qed.

Lemma Qlt_bool_false_iff (a b : Q) : Qlt_bool a b = false ↔ (b <= a)%Q.
Proof.
  unfold Qlt_bool. rewrite negb_false_iff. apply Qle_bool_iff.
Qed.

(** ** Hurt and death *)

(** A hurt big or fire player becomes small and is invincible for two
    seconds; nothing is lost. *)
Lemma hurt_big_or_fire (g : Game) :
  player_state g ≠ small →
  let g' := handle_player_hurt g in
  player_state g' = small ∧ invincibility_timer g' = FPS * 2 ∧
  lives g' = lives g ∧ game_state g' = game_state g.
Proof.
  intros Hs. cbv zeta. unfold handle_player_hurt.
  destruct (player_state g) eqn:E; [done| |];
    (unfold set_player_level_state; rewrite E; cbn; repeat split; done).
Qed.

Lemma hurt_small (g : Game) :
  player_state g = small → handle_player_hurt g = handle_player_death g.
Proof. intros Hs. unfold handle_player_hurt. by rewrite Hs. Qed.

Lemma handle_player_death_unfold (g : Game) :
  handle_player_death g =
  if lives g - 1 <=? 0 then game_over_transition (set_lives (lives g - 1) g)
  else match current_level_spec g with
       | Some spec =>
           load_level_from_spec spec
             (set_invincibility_timer (FPS * 2) (set_lives (lives g - 1) g))
       | None =>
           load_overworld_state
             (set_invincibility_timer (FPS * 2) (set_lives (lives g - 1) g))
       end.
Proof. reflexivity. Qed.

Lemma death_last_life (g : Game) :
  lives g ≤ 1 →
  handle_player_death g = game_over_transition (set_lives (lives g - 1) g).
Proof.
  intros Hl. rewrite handle_player_death_unfold.
  destruct (lives g - 1 <=? 0) eqn:E; [done|]. apply Z.leb_gt in E. lia.
Qed.

(** With lives to spare the level is reloaded; the invincibility window
    set just before the reload does not survive it. *)
Lemma death_reloads (g : Game) (spec : LevelSpec) :
  1 < lives g → current_level_spec g = Some spec →
  handle_player_death g =
    load_level_from_spec spec
      (set_invincibility_timer (FPS * 2) (set_lives (lives g - 1) g)) ∧
  lives (handle_player_death g) = lives g - 1 ∧
  invincibility_timer (handle_player_death g) = 0.
Proof.
  intros Hl Hspec. rewrite handle_player_death_unfold.
  destruct (lives g - 1 <=? 0) eqn:E; [apply Z.leb_le in E; lia|].
  rewrite Hspec. split; [done|]. rewrite load_level_record. split; reflexivity.
Qed.

Definition level_1_1_start : Game := load_level_from_spec level_1_1 init_game.

(** C3, where the code departs from it: a small player with three lives
    is hurt in level 1-1.  A life is lost and the level is reloaded with the
    player at the start, but the invincibility timer is 0 after the reload,
    not the two seconds [handle_player_death] had just set. *)
Theorem respawn_has_no_grace_period :
  let g := level_1_1_start in
  let g' := handle_player_hurt g in
  player_state g = small ∧ lives g = 3 ∧
  lives g' = 2 ∧ game_state g' = level ∧
  platform_rects g' = platform_rects g ∧
  R.midbottom (player_rect g') = (64, 368) ∧
  invincibility_timer g' = 0.
Proof. vm_compute. repeat split. Qed.

(** ** Events: pause, and leaving the game-over screen *)

(** The game-over state after the last life is lost in level 1-1 with 150
    points on the board. *)
Definition game_over_sample : Game :=
  handle_player_death (set_lives 1 (set_score 150 level_1_1_start)).

(** Decides the comparisons of concrete keys and modes in a goal. *)
Ltac decide_consts :=
  repeat match goal with
  | |- context [bool_decide (?a = ?b)] =>
      first [ rewrite (bool_decide_eq_true_2 (a = b)) by done
            | rewrite (bool_decide_eq_false_2 (a = b)) by done ]
  end.

Lemma escape_from_game_over (g : Game) :
  game_state g = game_over →
  handle_event g (KEYDOWN K_ESCAPE) = Some (load_overworld_state g).
Proof.
  intros Hs. unfold handle_event. rewrite Hs. decide_consts. reflexivity.
Qed.

Lemma return_from_game_over (g : Game) :
  game_state g = game_over →
  handle_event g (KEYDOWN K_RETURN) =
    Some (load_overworld_state (set_lives 3 (set_score 0 g))).
Proof.
  intros Hs. unfold handle_event. decide_consts. cbn [mbind option_bind].
  rewrite Hs. decide_consts. cbn [andb]. reflexivity.
Qed.

(** C6, where the code departs from it: leaving the game-over screen with
    Escape goes to the overworld with the old score and no lives, while
    leaving it with Return resets both. *)
Theorem escape_from_game_over_keeps_score_and_lives :
  game_state game_over_sample = game_over ∧
  (∃ g', handle_event game_over_sample (KEYDOWN K_ESCAPE) = Some g' ∧
         game_state g' = overworld ∧ score g' = 150 ∧ lives g' = 0) ∧
  (∃ g', handle_event game_over_sample (KEYDOWN K_RETURN) = Some g' ∧
         game_state g' = overworld ∧ score g' = 0 ∧ lives g' = 3).
Proof.
  split; [reflexivity|]. split.
  - rewrite escape_from_game_over by reflexivity. eexists. split; [reflexivity|].
    vm_compute. repeat split.
  - rewrite return_from_game_over by reflexivity. eexists. split; [reflexivity|].
    vm_compute. repeat split.
Qed.

Ltac ev_steps Hm :=
  repeat (progress (cbn [game_state set_paused_from_state set_paused
                          set_game_state paused_from_state andb negb];
                    rewrite ?Hm, ?andb_false_r; decide_consts)).

Lemma pause_event (g : Game) :
  paused g = false → game_state g = overworld ∨ game_state g = level →
  handle_event g (KEYDOWN K_p) =
    Some (set_paused_from_state (game_state g) (set_paused true g)).
Proof.
  intros Hp Hm. unfold handle_event. decide_consts. cbn [mbind option_bind].
  cbv zeta. cbn [paused set_paused]. rewrite Hp. cbn [negb].
  destruct Hm as [Hm|Hm]; rewrite Hm; ev_steps Hm; reflexivity.
Qed.

Lemma resume_event (g : Game) :
  paused g = true → paused_from_state g = game_state g →
  game_state g = overworld ∨ game_state g = level →
  handle_event g (KEYDOWN K_p) =
    Some (set_game_state (game_state g) (set_paused false g)).
Proof.
  intros Hp Hf Hm. unfold handle_event. decide_consts. cbn [mbind option_bind].
  cbv zeta. cbn [paused set_paused]. rewrite Hp. cbn [negb].
  destruct Hm as [Hm|Hm]; rewrite Hm; ev_steps Hm; rewrite Hf, ?Hm; ev_steps Hm;
    reflexivity.
Qed.

Lemma paused_frames_idle (specs : gmap (Z * Z) LevelSpec) (g : Game)
    (idle : list (Keys * Q)) :
  paused g = true →
  run_frames specs g ((fun kd => ([], kd.1, kd.2)) <$> idle) = Running g.
Proof.
  intros Hp. induction idle as [|[keys dt] idle IH]; [reflexivity|].
  rewrite fmap_cons. cbn [run_frames fst snd]. unfold frame.
  cbn [handle_events]. unfold dispatch. rewrite Hp. exact IH.
Qed.

(** C4: pausing overworld or level play and resuming with no other input
    in between gives back the same mode and the same score, lives, time,
    cursor, player position and velocity.  The frame of the pause key and
    all the frames without events after it leave the paused state as it
    is, whatever keys are held and however long they take; the second pause
    key then restores the state before the pause, in which only the
    remembered mode [paused_from_state] may be new. *)
Theorem pause_resume_roundtrip (specs : gmap (Z * Z) LevelSpec) (g : Game)
    (keys0 : Keys) (dt0 : Q) (idle : list (Keys * Q)) :
  paused g = false → game_state g = overworld ∨ game_state g = level →
  ∃ gp g',
    frame specs g [KEYDOWN K_p] keys0 dt0 = Running gp ∧ paused gp = true ∧
    run_frames specs gp ((fun kd => ([], kd.1, kd.2)) <$> idle) = Running gp ∧
    handle_events gp [KEYDOWN K_p] = Some g' ∧
    g' = set_paused_from_state (game_state g) g ∧
    paused g' = false ∧ same_session g g'.
Proof.
  intros Hp Hm.
  exists (set_paused_from_state (game_state g) (set_paused true g)),
         (set_paused_from_state (game_state g) g).
  split.
  { unfold frame. cbn [handle_events]. rewrite (pause_event g Hp Hm).
    cbn [mbind option_bind]. unfold dispatch.
    cbn [paused set_paused_from_state set_paused]. reflexivity. }
  split; [reflexivity|].
  split; [apply paused_frames_idle; reflexivity|].
  split.
  { cbn [handle_events]. rewrite resume_event; [|reflexivity|reflexivity|exact Hm].
    cbn [mbind option_bind]. f_equal.
    destruct g; cbn in *; subst; reflexivity. }
  split; [reflexivity|]. split; [exact Hp|]. repeat split.
Qed.

Lemma pause_resume_roundtrip_witness :
  ∃ gp g',
    frame sample_level_specs level_1_1_start [KEYDOWN K_p] (pressed [K_RIGHT]) DT
      = Running gp ∧ paused gp = true ∧
    run_frames sample_level_specs gp
      ((fun kd => ([], kd.1, kd.2)) <$> [(pressed [K_LEFT], DT); (pressed [], DT)])
      = Running gp ∧
    handle_events gp [KEYDOWN K_p] = Some g' ∧
    g' = set_paused_from_state (game_state level_1_1_start) level_1_1_start ∧
    paused g' = false ∧ same_session level_1_1_start g'.
Proof.
  apply (pause_resume_roundtrip sample_level_specs level_1_1_start
           (pressed [K_RIGHT]) DT [(pressed [K_LEFT], DT); (pressed [], DT)]).
  - reflexivity.
  - right. reflexivity.
Defined.

(** ** Overworld navigation *)

(** C5 as stated fails: at the first node of the first world (six nodes)
    a left input moves the cursor to the last node, and a right input at
    the last node moves it to the first. *)
Lemma navigation_wraps_at_the_ends :
  (∃ g', update_overworld_map_navigation sample_level_specs (pressed [K_LEFT]) DT
           init_game = Some g' ∧
         current_node_on_map init_game = 0 ∧ current_node_on_map g' = 5) ∧
  (∃ g', update_overworld_map_navigation sample_level_specs (pressed [K_RIGHT]) DT
           (set_current_node_on_map 5 init_game) = Some g' ∧
         current_node_on_map g' = 0).
Proof.
  split; eexists; (split; [vm_compute; reflexivity|]); repeat split.
Qed.

(** C5 (as the code has it): once the input cooldown has run out, a right
    input moves the cursor one node forward and a left input (without
    right) one node back, both modulo the number of nodes of the current
    world: the cursor wraps from the last node to the first and from the
    first to the last.  The world stays the same and the cooldown starts
    again.  While the cooldown runs the cursor does not move. *)
Theorem navigation_moves_modulo (specs : gmap (Z * Z) LevelSpec) (g : Game)
    (keys : Keys) (dt : Q) (world : World) :
  py_index (smw_map_data g) (current_world_on_map g) = Some world →
  0 ≤ current_node_on_map g < Z.of_nat (length (nodes world)) →
  let n := Z.of_nat (length (nodes world)) in
  let i := current_node_on_map g in
  ((ow_input_delay_timer g - dt <= 0)%Q → keys K_RIGHT = true →
     ∃ g', update_overworld_map_navigation specs keys dt g = Some g' ∧
           current_node_on_map g' = (if i =? n - 1 then 0 else i + 1) ∧
           current_world_on_map g' = current_world_on_map g ∧
           ow_input_delay_timer g' = ow_input_cooldown g) ∧
  ((ow_input_delay_timer g - dt <= 0)%Q → keys K_RIGHT = false → keys K_LEFT = true →
     ∃ g', update_overworld_map_navigation specs keys dt g = Some g' ∧
           current_node_on_map g' = (if i =? 0 then n - 1 else i - 1) ∧
           current_world_on_map g' = current_world_on_map g ∧
           ow_input_delay_timer g' = ow_input_cooldown g) ∧
  ((0 < ow_input_delay_timer g - dt)%Q →
     ∃ g', update_overworld_map_navigation specs keys dt g = Some g' ∧
           current_node_on_map g' = i ∧
           current_world_on_map g' = current_world_on_map g).
Proof.
  intros Hw Hi n i. fold n in Hi. fold i in Hi.
  assert (Hn0 : (n =? 0) = false) by (apply Z.eqb_neq; lia).
  split; [|split].
  - intros Ht Hr. unfold update_overworld_map_navigation. cbn.
    apply Qlt_bool_false_iff in Ht. rewrite Ht. rewrite Hw. cbn.
    rewrite Hr. fold n. rewrite Hn0. cbn.
    eexists. split; [reflexivity|]. cbn. fold i. split; [|done].
    destruct (i =? n - 1) eqn:E.
    + apply Z.eqb_eq in E. replace (i + 1) with n by lia. apply Z_mod_same_full.
    + apply Z.eqb_neq in E. apply Z.mod_small. lia.
  - intros Ht Hr Hl. unfold update_overworld_map_navigation. cbn.
    apply Qlt_bool_false_iff in Ht. rewrite Ht. rewrite Hw. cbn.
    rewrite Hr, Hl. fold n. rewrite Hn0. cbn.
    eexists. split; [reflexivity|]. cbn. fold i. split; [|done].
    destruct (i =? 0) eqn:E.
    + apply Z.eqb_eq in E. rewrite E. replace (0 - 1 + n) with (n - 1) by lia.
      apply Z.mod_small. lia.
    + apply Z.eqb_neq in E. replace (i - 1 + n) with (i - 1 + 1 * n) by lia.
      rewrite Z.mod_add by lia. apply Z.mod_small. lia.
  - intros Ht. unfold update_overworld_map_navigation. cbn.
    apply Qlt_bool_iff in Ht. rewrite Ht.
    eexists. split; [reflexivity|]. done.
Qed.

Lemma navigation_moves_modulo_witness :
  ∃ g', update_overworld_map_navigation sample_level_specs (pressed [K_RIGHT]) DT
          init_game = Some g' ∧
        current_node_on_map g' = 1 ∧
        current_world_on_map g' = current_world_on_map init_game ∧
        ow_input_delay_timer g' = ow_input_cooldown init_game.
Proof.
  pose proof (navigation_moves_modulo sample_level_specs init_game
                (pressed [K_RIGHT]) DT
                (mkWorld "Yoshi's Island"%string
                   (nodes (default (mkWorld ""%string [])
                                   (SMW_STYLE_MAP_DATA !! 0%nat))))
                eq_refl (conj (Z.le_refl 0) eq_refl)) as Hnav.
  apply (proj1 Hnav).
  - unfold Qle. simpl. lia.
  - reflexivity.
Defined.

(** ** Player against enemy *)

Lemma is_stomp_iff (g : Game) (e : Enemy) :
  is_stomp g e = true ↔
  (0 < player_vel_y g)%Q ∧ R.bottom (player_rect g) < R.centery (e_rect e).
Proof.
  unfold is_stomp. rewrite andb_true_iff, Qlt_bool_iff, Z.ltb_lt. reflexivity.
Qed.

Lemma write_enemy_attached (id0 pos : nat) (e : Enemy) (g : Game) :
  active_enemies_id g = id0 →
  write_enemy id0 pos e g = set_active_enemies (<[pos := e]> (active_enemies g)) g.
Proof. intros Hid. unfold write_enemy. case_decide; [reflexivity|done]. Qed.

Lemma write_enemy_player (id0 pos : nat) (e : Enemy) (g : Game) :
  let g' := write_enemy id0 pos e g in
  player_rect g' = player_rect g ∧ player_vel_y g' = player_vel_y g ∧
  invincibility_timer g' = invincibility_timer g ∧ score g' = score g ∧
  active_enemies_id g' = active_enemies_id g.
Proof. cbv zeta. unfold write_enemy. case_decide; repeat split. Qed.

(** X1: a walking enemy that overlaps the player after its move.  The
    contact is a stomp exactly when the player's vertical velocity is
    positive and the player's bottom edge is above the enemy's vertical
    centre.  A stomp puts the enemy (the [pos]-th entry of the list) in the
    stomped state, adds 100 to the score and leaves the player with a
    negative vertical velocity.  Otherwise, with the invincibility timer at
    or below zero the player is hurt, and with a running timer nothing
    happens and the enemy goes on walking. *)
Theorem stomp_classification (dt : Q) (id0 pos : nat) (g : Game) (e : Enemy) :
  e_state e = walking →
  active_enemies_id g = id0 → active_enemies g !! pos = Some e →
  let e1 := enemy_move dt (level_width g) e in
  let g1 := write_enemy id0 pos e1 g in
  R.colliderect (player_rect g) (e_rect e1) = true →
  ∃ g', visit_enemy dt id0 (g, pos) e = Some (g', S pos) ∧
    (is_stomp g e1 = true ↔
       (0 < player_vel_y g)%Q ∧ R.bottom (player_rect g) < R.centery (e_rect e1)) ∧
    (is_stomp g e1 = true →
       active_enemies g' !! pos = Some (set_e_state stomped e1) ∧
       score g' = score g + 100 ∧ (player_vel_y g' < 0)%Q) ∧
    (is_stomp g e1 = false →
       (invincibility_timer g ≤ 0 → g' = handle_player_hurt g1) ∧
       (0 < invincibility_timer g →
          g' = g1 ∧ active_enemies g' !! pos = Some e1 ∧ e_state e1 = walking)).
Proof.
  intros Hw Hid Hpos e1 g1 Hc.
  assert (Hlt : (pos < length (active_enemies g))%nat)
    by (apply lookup_lt_is_Some; eauto).
  assert (Hg1 : g1 = set_active_enemies (<[pos := e1]> (active_enemies g)) g)
    by (apply write_enemy_attached; exact Hid).
  unfold visit_enemy. rewrite Hw. fold e1. fold g1.
  assert (Hp1 : player_rect g1 = player_rect g) by (rewrite Hg1; reflexivity).
  rewrite Hp1, Hc.
  assert (Hs1 : is_stomp g1 e1 = is_stomp g e1) by (rewrite Hg1; reflexivity).
  eexists. split; [reflexivity|].
  split; [apply is_stomp_iff|].
  unfold enemy_contact. rewrite Hs1. split.
  - intros Hs. rewrite Hs. cbn.
    rewrite write_enemy_attached by (rewrite Hg1; exact Hid).
    cbn. rewrite Hg1. cbn. split; [|split; [reflexivity|reflexivity]].
    rewrite list_insert_insert_eq. apply list_lookup_insert_eq. exact Hlt.
  - intros Hs. rewrite Hs.
    assert (Hi1 : invincibility_timer g1 = invincibility_timer g)
      by (rewrite Hg1; reflexivity).
    rewrite Hi1. split.
    + intros Hi. apply Z.leb_le in Hi. rewrite Hi. reflexivity.
    + intros Hi. apply Z.leb_gt in Hi. rewrite Hi. split; [reflexivity|].
      split.
      * rewrite Hg1. cbn. apply list_lookup_insert_eq. exact Hlt.
      * unfold e1, enemy_move. cbn. case_match; cbn; exact Hw.
Qed.

(** The player falls onto the first goomba of level 1-1. *)
Definition above_goomba : Game :=
  set_player_vel_y 5 (set_player_rect (mkRect 205 320 16 24) level_1_1_start).

Lemma stomp_classification_witness :
  ∃ g', visit_enemy DT 1 (above_goomba, 0%nat)
          (mkEnemy (mkRect 200 336 32 32) "goomba" (-1 # 1) 336 walking 0)
        = Some (g', 1%nat) ∧ score g' = 100 ∧ (player_vel_y g' < 0)%Q.
Proof.
  destruct (stomp_classification DT 1 0 above_goomba
              (mkEnemy (mkRect 200 336 32 32) "goomba" (-1 # 1) 336 walking 0)
              eq_refl eq_refl eq_refl eq_refl)
    as (g' & Hv & Hiff & Hstomp & _).
  exists g'. split; [exact Hv|].
  destruct (Hstomp eq_refl) as (_ & Hscore & Hvel).
  split; [exact Hscore|exact Hvel].
Defined.

(** Broad-phase completeness in the form the collision pass uses it. *)
Lemma query_finds_overlap {A : Type} `{HasRect A}
    (g0 : Grid A) (l : list A) (a : A) (q : Rect) :
  0 < cell_size g0 → a ∈ l → R.valid (rect_of a) → R.valid q →
  R.colliderect q (rect_of a) = true →
  ∃ b, b ∈ query (inserts l (clear g0)) q ∧ rect_of b = rect_of a.
Proof.
  intros Hcs Ha Hva Hvq Hc.
  destruct (overlap_shares_cell (cell_size g0) q (rect_of a) Hcs Hvq Hva Hc)
    as (c & Hcq & Hca).
  apply query_covers, elem_of_bucket_scan. exists c.
  rewrite cell_size_inserts. split; [exact Hcq|].
  apply inserts_here; [exact Ha|exact Hca].
Qed.

(** ** Player against the level geometry *)

Lemma Qlt_bool_nonzero (v : Q) :
  ¬ (v == 0)%Q → Qlt_bool 0 v = true ∨ (Qlt_bool 0 v = false ∧ Qlt_bool v 0 = true).
Proof.
  intros Hv. destruct (Qlt_bool 0 v) eqn:E; [by left|right].
  split; [reflexivity|]. apply Qlt_bool_iff. apply Qlt_bool_false_iff in E.
  apply Qle_lteq in E as [E|E]; [exact E|done].
Qed.

(** A candidate that does not overlap the player changes nothing. *)
Lemma resolve_miss (d : Direction) (g : Game) (r : Rect) :
  R.colliderect (player_rect g) r = false → resolve_against d g r = g.
Proof. intros Hc. unfold resolve_against. by rewrite Hc. Qed.

Lemma colliderect_false_intro (a b : Rect) :
  R.valid a → R.valid b →
  ¬ (R.left a < R.right b ∧ R.top a < R.bottom b ∧
     R.left b < R.right a ∧ R.top b < R.bottom a) →
  R.colliderect a b = false.
Proof.
  intros Ha Hb Hn. destruct (R.colliderect a b) eqn:E; [|reflexivity].
  exfalso. apply Hn. by apply colliderect_valid.
Qed.

(** With a non-zero velocity on the axis, the candidate that overlaps the
    player is left without overlap and the velocity is zeroed. *)
Lemma resolve_hit (d : Direction) (g : Game) (r : Rect) :
  R.valid (player_rect g) → R.valid r → ¬ (axis_vel d g == 0)%Q →
  R.colliderect (player_rect g) r = true →
  R.colliderect (player_rect (resolve_against d g r)) r = false ∧
  (axis_vel d (resolve_against d g r) == 0)%Q.
Proof.
  intros Hp Hr Hv Hc. unfold resolve_against. rewrite Hc.
  destruct Hp as [Hpw Hph]. pose proof Hr as [Hrw Hrh].
  destruct d; cbn in Hv;
    destruct (Qlt_bool_nonzero _ Hv) as [E|[E1 E2]];
    rewrite ?E, ?E1, ?E2; cbn; (split; [|reflexivity]);
    (apply colliderect_false_intro; [split; cbn; lia|exact Hr|]);
    unfold R.left, R.right, R.top, R.bottom; cbn; lia.
Qed.

(** The candidates of a query on a grid filled after [clear] are inserted
    rectangles. *)
Lemma query_from_statics (gr0 : Grid Rect) (statics : list Rect) (q r : Rect) :
  r ∈ query (inserts statics (clear gr0)) q → r ∈ statics.
Proof.
  intros Hr. apply query_sound, elem_of_bucket_scan in Hr as (c & _ & Hb).
  apply inserts_inv in Hb as [Hb|Hb]; [|exact Hb].
  by apply in_bucket_clear in Hb.
Qed.

(** A hit leaves the velocity on the axis at zero. *)
Lemma resolve_hit_stops (d : Direction) (g : Game) (r : Rect) :
  R.colliderect (player_rect g) r = true → axis_vel d (resolve_against d g r) = 0%Q.
Proof. intros Hc. unfold resolve_against. rewrite Hc. destruct d; reflexivity. Qed.

(** With the velocity on the axis at zero a candidate changes nothing at
    all, whether it overlaps the player or not. *)
Lemma resolve_stopped (d : Direction) (g : Game) (r : Rect) :
  axis_vel d g = 0%Q → resolve_against d g r = g.
Proof.
  intros Hv. unfold resolve_against.
  destruct (R.colliderect (player_rect g) r); [|reflexivity].
  destruct g, d; cbn in Hv; subst; reflexivity.
Qed.

Lemma foldl_resolve_stopped (d : Direction) (l : list Rect) (g : Game) :
  axis_vel d g = 0%Q → foldl (resolve_against d) g l = g.
Proof.
  intros Hv. induction l as [|r l IH]; [reflexivity|].
  cbn [foldl]. by rewrite (resolve_stopped d g r Hv).
Qed.

(** The loop of the collision pass: the candidates before the first one
    that overlaps the player change nothing, that one is resolved, and the
    ones after it change nothing any more. *)
Lemma foldl_resolve_first (d : Direction) (l : list Rect) (g : Game) :
  ((∀ r, r ∈ l → R.colliderect (player_rect g) r = false) ∧
   foldl (resolve_against d) g l = g) ∨
  (∃ l1 r1 l2, l = l1 ++ r1 :: l2 ∧
     (∀ r, r ∈ l1 → R.colliderect (player_rect g) r = false) ∧
     R.colliderect (player_rect g) r1 = true ∧
     foldl (resolve_against d) g l = resolve_against d g r1).
Proof.
  induction l as [|r l IH].
  - left. split; [|reflexivity]. intros r Hr. by apply not_elem_of_nil in Hr.
  - cbn [foldl]. destruct (R.colliderect (player_rect g) r) eqn:Hc.
    + right. exists [], r, l. split; [reflexivity|].
      split; [intros r0 Hr0; by apply not_elem_of_nil in Hr0|].
      split; [exact Hc|].
      apply foldl_resolve_stopped. by apply resolve_hit_stops.
    + rewrite (resolve_miss d g r Hc).
      destruct IH as [[Hall Heq]|(l1 & r1 & l2 & -> & Hl1 & Hc1 & Heq)].
      * left. split; [|exact Heq].
        intros r0 [->|Hr0]%elem_of_cons; [exact Hc|by apply Hall].
      * right. exists (r :: l1), r1, l2. split; [reflexivity|].
        split; [|by split].
        intros r0 [->|Hr0]%elem_of_cons; [exact Hc|by apply Hl1].
Qed.

(** X2: the player's collision pass.  With the grid holding the
    level's static rectangles (all of positive size) and a non-zero velocity
    on the axis, a collision pass leaves a player that overlapped nothing
    untouched.  Otherwise it resolves the player against the first
    candidate of the grid query that overlaps the player, a static
    rectangle of the level, and against no other: the state after the pass
    is the one the loop body gives for that candidate, the player no
    longer overlaps it, and the velocity on the axis is zero. *)
Theorem player_pushed_out_of_first_hit (d : Direction) (g : Game)
    (gr0 : Grid Rect) (statics : list Rect) :
  spatial_grid g = inserts statics (clear gr0) → 0 < cell_size gr0 →
  (∀ r, r ∈ statics → R.valid r) → R.valid (player_rect g) →
  ¬ (axis_vel d g == 0)%Q →
  let g' := handle_level_collisions d g in
  ((∀ r, r ∈ statics → R.colliderect (player_rect g) r = false) → g' = g) ∧
  ((∃ r, r ∈ statics ∧ R.colliderect (player_rect g) r = true) →
     ∃ l1 r1 l2,
       query (spatial_grid g) (player_rect g) = l1 ++ r1 :: l2 ∧
       (∀ r, r ∈ l1 → R.colliderect (player_rect g) r = false) ∧
       r1 ∈ statics ∧ R.colliderect (player_rect g) r1 = true ∧
       g' = resolve_against d g r1 ∧
       R.colliderect (player_rect g') r1 = false ∧ (axis_vel d g' == 0)%Q).
Proof.
  intros Hgrid Hcs Hvalid Hp Hv g'.
  assert (Hsub : ∀ r, r ∈ query (spatial_grid g) (player_rect g) → r ∈ statics).
  { intros r Hr. rewrite Hgrid in Hr. by apply query_from_statics in Hr. }
  subst g'. unfold handle_level_collisions.
  destruct (foldl_resolve_first d (query (spatial_grid g) (player_rect g)) g)
    as [[Hall Heq]|(l1 & r1 & l2 & Hsplit & Hl1 & Hc1 & Heq)].
  - split; [intros _; exact Heq|].
    intros (r & Hr & Hc). exfalso.
    destruct (@query_finds_overlap Rect Rect_HasRect gr0 statics r (player_rect g)
                Hcs Hr (Hvalid r Hr) Hp Hc)
      as (b & Hb & Hbr).
    assert (Hbr' : b = r) by exact Hbr. clear Hbr. subst b.
    rewrite <- Hgrid in Hb. rewrite (Hall r Hb) in Hc. discriminate.
  - assert (Hin : r1 ∈ statics).
    { apply Hsub. rewrite Hsplit. apply elem_of_app. right.
      apply elem_of_cons. by left. }
    split.
    + intros Hnone. rewrite (Hnone r1 Hin) in Hc1. discriminate.
    + intros _. exists l1, r1, l2.
      split; [exact Hsplit|]. split; [exact Hl1|]. split; [exact Hin|].
      split; [exact Hc1|]. split; [exact Heq|]. rewrite Heq.
      exact (resolve_hit d g r1 Hp (Hvalid r1 Hin) Hv Hc1).
Qed.

(** The player lands a little inside the ground of level 1-1. *)
Definition sunk_into_ground : Game :=
  set_player_vel_y 5 (set_player_rect (mkRect 56 350 16 24) level_1_1_start).

Lemma player_pushed_out_of_first_hit_witness :
  ∃ l1 r1 l2,
    query (spatial_grid sunk_into_ground) (player_rect sunk_into_ground)
      = l1 ++ r1 :: l2 ∧
    (∀ r, r ∈ l1 → R.colliderect (player_rect sunk_into_ground) r = false) ∧
    r1 ∈ platform_rects sunk_into_ground ++ block_rects sunk_into_ground ∧
    R.colliderect (player_rect sunk_into_ground) r1 = true ∧
    handle_level_collisions vertical sunk_into_ground
      = resolve_against vertical sunk_into_ground r1 ∧
    R.colliderect (player_rect (handle_level_collisions vertical sunk_into_ground)) r1
      = false ∧
    (axis_vel vertical (handle_level_collisions vertical sunk_into_ground) == 0)%Q.
Proof.
  apply (player_pushed_out_of_first_hit vertical sunk_into_ground (new_grid 64)
           (platform_rects sunk_into_ground ++ block_rects sunk_into_ground)).
  - reflexivity.
  - reflexivity.
  - intros r Hr. vm_compute in Hr.
    repeat (apply elem_of_cons in Hr as [->|Hr]; [split; reflexivity|]).
    by apply not_elem_of_nil in Hr.
  - split; reflexivity.
  - discriminate.
  - exists (mkRect 0 368 640 32). split; [|reflexivity].
    apply elem_of_cons. left. reflexivity.
Defined.

(** Resolution is not complete, for enemies and for the player.  In level 1-3 the
    koopa walks into the floating platform: after 36 ticks at 60 frames per
    second with no key pressed it overlaps the platform.  And a player who
    moves left into two neighbouring blocks is pushed out of the first one
    only, into the second. *)
Lemma residual_overlap_after_resolution :
  (∃ g e r, ticks 36 (pressed []) DT (load_level_from_spec level_1_3 init_game) = Some g ∧
            e ∈ active_enemies g ∧ e_state e = walking ∧
            r ∈ platform_rects g ∧ R.valid r ∧
            R.colliderect (e_rect e) r = true) ∧
  (let g := set_player_vel_x (-45 # 1)
              (set_player_rect (mkRect 185 230 16 24)
                 (load_level_from_spec
                    (sample_placeholder 0 2 (typed_node (90, 220) (0, 2) "Ylw Switch" "switch"))
                    init_game)) in
   ∃ r, r ∈ block_rects g ∧ R.valid r ∧
        R.colliderect (player_rect (handle_level_collisions horizontal g)) r = true).
Proof.
  split.
  - eexists. exists (mkEnemy (mkRect 242 320 32 48) "koopa" (-15 # 10) 320 walking 0),
                    (mkRect 100 304 150 32).
    split; [vm_compute; reflexivity|].
    split; [apply elem_of_cons; right; apply elem_of_cons; left; reflexivity|].
    split; [reflexivity|].
    split; [apply elem_of_cons; right; apply elem_of_cons; left; reflexivity|].
    split; [split; reflexivity|reflexivity].
  - cbv zeta. exists (mkRect 192 224 32 32).
    split; [apply elem_of_cons; right; apply elem_of_cons; left; reflexivity|].
    split; [split; reflexivity|vm_compute; reflexivity].
Qed.

(** ** More on the grid *)

(** X3: a query on a grid that was just cleared returns nothing, whatever
    the grid held before and whatever the query rectangle.  The cell size
    is not zero: with a cell size of zero the query raises
    ZeroDivisionError instead of returning. *)
Theorem query_cleared_empty {A : Type} `{HasRect A} (g : Grid A) (q : Rect) :
  cell_size g ≠ 0 → query (clear g) q = [].
Proof.
  intros _.
  assert (Hscan : bucket_scan (clear g) q = []).
  { unfold bucket_scan. generalize (cell_range (cell_size (clear g)) q).
    intros l. induction l as [|c l IH]; [reflexivity|].
    cbn [mbind list_bind]. rewrite IH. cbn [cells clear].
    rewrite lookup_empty. reflexivity. }
  unfold query. rewrite Hscan. reflexivity.
Qed.

Lemma query_cleared_empty_witness :
  query (clear (inserts [mkRect 0 368 640 32; mkRect 160 224 32 32] (new_grid 64)))
        (mkRect 150 210 16 24) = [].
Proof.
  apply (query_cleared_empty
           (inserts [mkRect 0 368 640 32; mkRect 160 224 32 32] (new_grid 64))
           (mkRect 150 210 16 24)).
  discriminate.
Defined.

(** X4: a query returns only rectangles that were inserted since the last
    [clear], and each of them lies in a cell of the query's cell range. *)
Theorem query_only_inserted {A : Type} `{HasRect A}
    (g0 : Grid A) (l : list A) (q : Rect) (a : A) :
  a ∈ query (inserts l (clear g0)) q →
  a ∈ l ∧ ∃ c, c ∈ cell_range (cell_size g0) q ∧
               c ∈ cell_range (cell_size g0) (rect_of a).
Proof.
  intros Ha. apply query_sound, elem_of_bucket_scan in Ha as (c & Hc & Hb).
  rewrite cell_size_inserts in Hc. cbn [cell_size clear] in Hc.
  assert (Hgen : ∀ (l : list A) (g : Grid A),
            in_bucket (cells (inserts l g)) c a →
            in_bucket (cells g) c a ∨
            (a ∈ l ∧ c ∈ cell_range (cell_size g) (rect_of a))).
  { clear. intros l. induction l as [|b l IH]; intros g Hb; [by left|].
    rewrite inserts_cons in Hb. apply IH in Hb as [Hb|[Hb Hc]].
    - apply foldl_bucket_append_inv in Hb as [Hb|[-> Hc]]; [by left|].
      right. split; [apply elem_of_cons; by left|exact Hc].
    - right. split; [apply elem_of_cons; by right|exact Hc]. }
  apply Hgen in Hb as [Hb|[Hl Hca]].
  - by apply in_bucket_clear in Hb.
  - split; [exact Hl|]. exists c. split; [exact Hc|exact Hca].
Qed.

Lemma query_only_inserted_witness :
  mkRect 0 368 640 32 ∈ [mkRect 0 368 640 32; mkRect 160 224 32 32] ∧
  ∃ c, c ∈ cell_range (cell_size (new_grid (A:=Rect) 64)) (mkRect 56 350 16 24) ∧
       c ∈ cell_range (cell_size (new_grid (A:=Rect) 64))
             (rect_of (mkRect 0 368 640 32)).
Proof.
  apply (@query_only_inserted Rect Rect_HasRect (new_grid 64)
           [mkRect 0 368 640 32; mkRect 160 224 32 32] (mkRect 56 350 16 24)).
  vm_compute. apply elem_of_cons. left. reflexivity.
Defined.

(** X5: a rectangle whose right edge falls in a cell to the left of the
    cell of its left edge (a negative width reaching across a cell border),
    or likewise vertically, is put into no bucket: the insert changes
    nothing. *)
Theorem insert_inverted_rect_noop {A : Type} `{HasRect A} (a : A) (g : Grid A) :
  R.right (rect_of a) / cell_size g < R.left (rect_of a) / cell_size g ∨
  R.bottom (rect_of a) / cell_size g < R.top (rect_of a) / cell_size g →
  insert_rect a g = g.
Proof.
  intros Hinv.
  assert (Hnil : cell_range (cell_size g) (rect_of a) = []).
  { apply elem_of_nil_inv. intros c Hc. apply elem_of_cell_range in Hc. lia. }
  unfold insert_rect. rewrite Hnil. destruct g; reflexivity.
Qed.

Lemma insert_inverted_rect_noop_witness :
  insert_rect (mkRect 70 0 (-20) 5) (new_grid 64) = new_grid 64.
Proof.
  apply (@insert_inverted_rect_noop Rect Rect_HasRect (mkRect 70 0 (-20) 5) (new_grid 64)).
  left. vm_compute. reflexivity.
Defined.

(** ** More on loading a level *)

Lemma foldl_max_ge (l : list Z) (x : Z) :
  x ≤ foldl Z.max x l ∧ ∀ y, y ∈ l → y ≤ foldl Z.max x l.
Proof.
  revert x. induction l as [|z l IH]; intros x; cbn [foldl].
  - split; [lia|]. intros y Hy. by apply not_elem_of_nil in Hy.
  - destruct (IH (Z.max x z)) as [H1 H2]. split; [lia|].
    intros y [->|Hy]%elem_of_cons; [lia|by apply H2].
Qed.

(** X6: the level width set by a load is at least the screen width and at
    least the right edge of every platform of the specification; without
    platforms it is the screen width. *)
Theorem level_width_covers_platforms (spec : LevelSpec) (g : Game) :
  let lw := level_width (load_level_from_spec spec g) in
  W ≤ lw ∧
  (∀ x y w h, (x, y, w, h) ∈ platforms spec → x + w ≤ lw) ∧
  (platforms spec = [] → lw = W).
Proof.
  cbv zeta. rewrite load_level_record. cbn [level_width]. unfold level_width_of.
  destruct (platforms spec) as [|p ps] eqn:E.
  - split; [lia|]. split; [|done]. intros x y w h Hin. by apply not_elem_of_nil in Hin.
  - split; [lia|]. split; [|done]. intros x y w h Hin.
    rewrite fmap_cons. cbn [py_max].
    destruct (foldl_max_ge ((λ p0, p0.1.1.1 + p0.1.2) <$> ps) (p.1.1.1 + p.1.2))
      as [H1 H2].
    apply elem_of_cons in Hin as [<-|Hin]; [cbn [fst snd] in *; lia|].
    assert (Hx : x + w ∈ (λ p0 : Z * Z * Z * Z, p0.1.1.1 + p0.1.2) <$> ps).
    { apply list_elem_of_fmap. exists (x, y, w, h). split; [reflexivity|exact Hin]. }
    apply H2 in Hx. lia.
Qed.

(** X7: after a load the broad phase misses no static rectangle of the
    level: every platform or block rectangle of positive size that overlaps
    a query rectangle of positive size is among the candidates the grid
    returns for it (the grid's cell size being positive). *)
Theorem loaded_grid_complete (spec : LevelSpec) (g : Game) (r q : Rect) :
  0 < cell_size (spatial_grid g) →
  let g' := load_level_from_spec spec g in
  r ∈ platform_rects g' ++ block_rects g' →
  R.valid r → R.valid q → R.colliderect q r = true →
  r ∈ query (spatial_grid g') q.
Proof.
  intros Hcs g'. subst g'. rewrite load_level_record.
  cbn [platform_rects block_rects spatial_grid].
  intros Hr Hvr Hvq Hc.
  destruct (@query_finds_overlap Rect Rect_HasRect (spatial_grid g) _ r q Hcs Hr Hvr Hvq Hc)
    as (b & Hb & Hbr).
  assert (Hbr' : b = r) by exact Hbr. subst b. exact Hb.
Qed.

Lemma loaded_grid_complete_witness :
  mkRect 0 368 640 32 ∈ query (spatial_grid level_1_1_start) (mkRect 56 350 16 24).
Proof.
  apply (loaded_grid_complete level_1_1 init_game (mkRect 0 368 640 32)
           (mkRect 56 350 16 24)).
  - reflexivity.
  - apply elem_of_cons. left. reflexivity.
  - split; reflexivity.
  - split; reflexivity.
  - reflexivity.
Defined.

(** X8: every enemy of a freshly loaded level is walking, is 32 wide, and
    stands with its feet on the ground line [H - TILE * SCALE] whatever
    height its spawn entry gives; a goomba is 32 high and moves left at
    speed 1, any other type is 48 high and moves left at speed 1.5.  Its x
    position and type are those of a spawn entry. *)
Theorem spawned_enemies_stand_on_ground (spec : LevelSpec) (g : Game) (e : Enemy) :
  e ∈ active_enemies (load_level_from_spec spec g) →
  e_state e = walking ∧ rw (e_rect e) = TILE * SCALE ∧
  R.bottom (e_rect e) = H - TILE * SCALE ∧
  ((e_type e = "goomba"%string ∧ rh (e_rect e) = 32 ∧ e_vel_x e = (-1 # 1)%Q) ∨
   (e_type e ≠ "goomba"%string ∧ rh (e_rect e) = 48 ∧ e_vel_x e = (-15 # 10)%Q)) ∧
  ∃ y, (rx (e_rect e), y, e_type e) ∈ enemies spec.
Proof.
  rewrite load_level_record. cbn [active_enemies]. intros He.
  apply list_elem_of_fmap in He as ([[x y] t] & -> & Hin).
  unfold spawn_enemy. destruct (String.eqb t "goomba") eqn:E.
  - apply String.eqb_eq in E. subst t.
    repeat split; [left; repeat split|by exists y].
  - apply String.eqb_neq in E.
    repeat split; [right; repeat split; exact E|by exists y].
Qed.

Lemma spawned_enemies_stand_on_ground_witness :
  let e := mkEnemy (mkRect 380 320 32 48) "koopa" (-15 # 10) 320 walking 0 in
  e_state e = walking ∧ rw (e_rect e) = TILE * SCALE ∧
  R.bottom (e_rect e) = H - TILE * SCALE ∧
  ((e_type e = "goomba"%string ∧ rh (e_rect e) = 32 ∧ e_vel_x e = (-1 # 1)%Q) ∨
   (e_type e ≠ "goomba"%string ∧ rh (e_rect e) = 48 ∧ e_vel_x e = (-15 # 10)%Q)) ∧
  ∃ y, (rx (e_rect e), y, e_type e) ∈ enemies level_1_1.
Proof.
  apply (spawned_enemies_stand_on_ground level_1_1 init_game).
  apply elem_of_cons. right. apply elem_of_cons. left. reflexivity.
Defined.

(** X9: changing the player's size state keeps the player's feet where
    they are (the rectangle's midbottom, for a rectangle of non-zero width),
    leaves the player in the requested state, and gives the rectangle the
    size of that state whenever the state really changes. *)
Theorem set_player_level_state_keeps_feet (s : PlayerState) (g : Game) :
  rw (player_rect g) ≠ 0 →
  let g' := set_player_level_state s g in
  player_state g' = s ∧
  R.midbottom (player_rect g') = R.midbottom (player_rect g) ∧
  (player_state g ≠ s → R.size (player_rect g') = player_sizes s).
Proof.
  intros Hw. cbv zeta. unfold set_player_level_state.
  destruct (bool_decide (player_state g = s) &&
            negb (bool_decide (R.size (player_rect g) = (0, 0)))) eqn:E.
  - apply andb_true_iff in E as [E _]. apply bool_decide_eq_true in E.
    split; [exact E|]. split; [reflexivity|]. intros Hne. done.
  - apply Z.eqb_neq in Hw. rewrite Hw. cbn [player_state set_player_rect
      set_player_state player_rect].
    split; [reflexivity|]. split; [apply midbottom_set_midbottom|].
    intros _. destruct (player_sizes s). reflexivity.
Qed.

Lemma set_player_level_state_keeps_feet_witness :
  let g := set_player_state big (set_player_rect (mkRect 100 200 16 32) init_game) in
  let g' := set_player_level_state small g in
  player_state g' = small ∧
  R.midbottom (player_rect g') = R.midbottom (player_rect g) ∧
  (player_state g ≠ small → R.size (player_rect g') = player_sizes small).
Proof.
  apply (set_player_level_state_keeps_feet small
           (set_player_state big (set_player_rect (mkRect 100 200 16 32) init_game))).
  discriminate.
Defined.

(** ** The player's move *)

(** What a collision pass and the player's move leave alone: everything
    but the player's rectangle, velocity, ground flag and the camera. *)
Definition unmoved (g g' : Game) : Prop :=
  game_state g' = game_state g ∧ paused g' = paused g ∧
  paused_from_state g' = paused_from_state g ∧
  smw_map_data g' = smw_map_data g ∧
  current_world_on_map g' = current_world_on_map g ∧
  current_node_on_map g' = current_node_on_map g ∧
  ow_input_delay_timer g' = ow_input_delay_timer g ∧
  current_level_spec g' = current_level_spec g ∧
  score g' = score g ∧ lives g' = lives g ∧ time_left g' = time_left g ∧
  player_state g' = player_state g ∧
  invincibility_timer g' = invincibility_timer g ∧
  level_width g' = level_width g ∧
  platform_rects g' = platform_rects g ∧ block_rects g' = block_rects g ∧
  coin_rects g' = coin_rects g ∧ active_enemies g' = active_enemies g ∧
  active_enemies_id g' = active_enemies_id g ∧ goal_rect g' = goal_rect g ∧
  spatial_grid g' = spatial_grid g.

Lemma unmoved_refl (g : Game) : unmoved g g.
Proof. repeat split. Qed.

Lemma unmoved_trans (g1 g2 g3 : Game) : unmoved g1 g2 → unmoved g2 g3 → unmoved g1 g3.
Proof.
  unfold unmoved. intros H12 H23.
  repeat match goal with H : _ ∧ _ |- _ => destruct H end.
  repeat split; congruence.
Qed.

Lemma resolve_against_unmoved (d : Direction) (g : Game) (r : Rect) :
  unmoved g (resolve_against d g r).
Proof.
  unfold resolve_against.
  destruct (R.colliderect (player_rect g) r); [|apply unmoved_refl].
  destruct d.
  - destruct (Qlt_bool 0 (player_vel_x g)); [repeat split|].
    destruct (Qlt_bool (player_vel_x g) 0); repeat split.
  - destruct (Qlt_bool 0 (player_vel_y g)); [repeat split|].
    destruct (Qlt_bool (player_vel_y g) 0); repeat split.
Qed.

Lemma foldl_resolve_unmoved (d : Direction) (l : list Rect) (g : Game) :
  unmoved g (foldl (resolve_against d) g l).
Proof.
  revert g. induction l as [|r l IH]; intros g; [apply unmoved_refl|].
  cbn [foldl]. eapply unmoved_trans; [apply resolve_against_unmoved|apply IH].
Qed.

Lemma handle_level_collisions_unmoved (d : Direction) (g : Game) :
  unmoved g (handle_level_collisions d g).
Proof. unfold handle_level_collisions. apply foldl_resolve_unmoved. Qed.

(** A pass keeps the vertical velocity or zeroes it. *)
Lemma resolve_against_vel_y (d : Direction) (g : Game) (r : Rect) :
  player_vel_y (resolve_against d g r) = player_vel_y g ∨
  player_vel_y (resolve_against d g r) = 0%Q.
Proof.
  unfold resolve_against.
  destruct (R.colliderect (player_rect g) r); [|by left].
  destruct d.
  - left. destruct (Qlt_bool 0 (player_vel_x g)); [reflexivity|].
    destruct (Qlt_bool (player_vel_x g) 0); reflexivity.
  - right. reflexivity.
Qed.

Lemma foldl_resolve_vel_y (d : Direction) (l : list Rect) (g : Game) :
  player_vel_y (foldl (resolve_against d) g l) = player_vel_y g ∨
  player_vel_y (foldl (resolve_against d) g l) = 0%Q.
Proof.
  revert g. induction l as [|r l IH]; intros g; [by left|].
  cbn [foldl]. destruct (IH (resolve_against d g r)) as [->| ->]; [|by right].
  apply resolve_against_vel_y.
Qed.

(** The state of [move_player] just before its vertical pass. *)
Definition before_vertical_pass (keys : Keys) (dt : Q) (g : Game) : Game :=
  let g := set_player_vel_x 0 g in
  let g := if keys K_LEFT then set_player_vel_x (-300 * dt) g else g in
  let g := if keys K_RIGHT then set_player_vel_x (300 * dt) g else g in
  let g := if keys K_SPACE && player_on_ground g
           then set_player_on_ground false (set_player_vel_y JUMP_VEL g) else g in
  let g := set_player_vel_y (player_vel_y g + GRAVITY) g in
  let g := if Qlt_bool 15 (player_vel_y g) then set_player_vel_y 15 g else g in
  let g := set_player_rect (R.add_x (player_vel_x g) (player_rect g)) g in
  let g := handle_level_collisions horizontal g in
  let g := set_player_rect (R.add_y (player_vel_y g) (player_rect g)) g in
  set_player_on_ground false g.

Lemma move_player_split (keys : Keys) (dt : Q) (g : Game) :
  move_player keys dt g =
  let g1 := handle_level_collisions vertical (before_vertical_pass keys dt g) in
  set_camera_offset_x
    (Z.max 0 (Z.min (R.centerx (player_rect g1) - W / 2) (level_width g1 - W))) g1.
Proof. reflexivity. Qed.

Lemma before_vertical_pass_facts (keys : Keys) (dt : Q) (g : Game) :
  let g1 := before_vertical_pass keys dt g in
  unmoved g g1 ∧ (player_vel_y g1 <= 15)%Q ∧ player_on_ground g1 = false.
Proof.
  cbv zeta. unfold before_vertical_pass.
  set (ga := if keys K_LEFT then _ else _).
  assert (Ha : unmoved g ga ∧ player_vel_y ga = player_vel_y g ∧
               player_on_ground ga = player_on_ground g).
  { subst ga. destruct (keys K_LEFT); repeat split. }
  clearbody ga. cbv zeta.
  set (gb := if keys K_RIGHT then _ else ga).
  assert (Hb : unmoved g gb ∧ player_vel_y gb = player_vel_y g ∧
               player_on_ground gb = player_on_ground g).
  { subst gb. destruct Ha as (Ha1 & Ha2 & Ha3). destruct (keys K_RIGHT).
    - split; [eapply unmoved_trans; [exact Ha1|repeat split]|]. split; assumption.
    - split; [exact Ha1|]. split; assumption. }
  clearbody gb. clear Ha ga.
  set (gc := if keys K_SPACE && player_on_ground gb then _ else gb).
  assert (Hc : unmoved g gc).
  { subst gc. destruct Hb as (Hb1 & _). destruct (keys K_SPACE && player_on_ground gb).
    - eapply unmoved_trans; [exact Hb1|repeat split].
    - exact Hb1. }
  clearbody gc. clear Hb gb.
  set (gd := set_player_vel_y (player_vel_y gc + GRAVITY) gc).
  assert (Hd : unmoved g gd) by (eapply unmoved_trans; [exact Hc|repeat split]).
  clearbody gd. clear Hc gc.
  set (ge := if Qlt_bool 15 (player_vel_y gd) then set_player_vel_y 15 gd else gd).
  assert (He : unmoved g ge ∧ (player_vel_y ge <= 15)%Q).
  { subst ge. destruct (Qlt_bool 15 (player_vel_y gd)) eqn:E.
    - split; [eapply unmoved_trans; [exact Hd|repeat split]|]. apply Qle_refl.
    - split; [exact Hd|]. by apply Qlt_bool_false_iff in E. }
  clearbody ge. clear Hd gd. destruct He as [He1 He2].
  set (gf := set_player_rect (R.add_x (player_vel_x ge) (player_rect ge)) ge).
  assert (Hf : unmoved g gf ∧ (player_vel_y gf <= 15)%Q).
  { subst gf. split; [eapply unmoved_trans; [exact He1|repeat split]|exact He2]. }
  clearbody gf. clear He1 He2 ge. destruct Hf as [Hf1 Hf2].
  set (gh := handle_level_collisions horizontal gf).
  assert (Hh : unmoved g gh ∧ (player_vel_y gh <= 15)%Q).
  { subst gh. split.
    - eapply unmoved_trans; [exact Hf1|apply handle_level_collisions_unmoved].
    - unfold handle_level_collisions.
      destruct (foldl_resolve_vel_y horizontal (query (spatial_grid gf) (player_rect gf)) gf)
        as [-> | ->]; [exact Hf2|discriminate]. }
  clearbody gh. clear Hf1 Hf2 gf. destruct Hh as [Hh1 Hh2].
  split; [eapply unmoved_trans; [exact Hh1|repeat split]|]. split; [exact Hh2|reflexivity].
Qed.

(** What the player's move of a tick does to the state. *)
Lemma move_player_effect (keys : Keys) (dt : Q) (g : Game) :
  let g' := move_player keys dt g in
  (player_vel_y g' <= 15)%Q ∧
  0 ≤ camera_offset_x g' ≤ Z.max 0 (level_width g - W) ∧
  unmoved g g'.
Proof.
  cbv zeta. rewrite move_player_split. cbv zeta.
  destruct (before_vertical_pass_facts keys dt g) as (Hu & Hv & _).
  set (g0 := before_vertical_pass keys dt g) in *. clearbody g0.
  pose proof (handle_level_collisions_unmoved vertical g0) as Hu1.
  assert (Hv1 : (player_vel_y (handle_level_collisions vertical g0) <= 15)%Q).
  { unfold handle_level_collisions.
    destruct (foldl_resolve_vel_y vertical (query (spatial_grid g0) (player_rect g0)) g0)
      as [-> | ->]; [exact Hv|discriminate]. }
  set (g1 := handle_level_collisions vertical g0) in *. clearbody g1.
  assert (Hlw : level_width g1 = level_width g).
  { destruct Hu as (_&_&_&_&_&_&_&_&_&_&_&_&_&Hl&_).
    destruct Hu1 as (_&_&_&_&_&_&_&_&_&_&_&_&_&Hl1&_). congruence. }
  cbn [player_vel_y camera_offset_x set_camera_offset_x].
  split; [exact Hv1|]. split; [rewrite Hlw; lia|].
  eapply unmoved_trans; [exact Hu|]. eapply unmoved_trans; [exact Hu1|repeat split].
Qed.

(** X10: after the player's move of a tick the vertical velocity is at
    most the terminal velocity 15, the camera offset lies between 0 and
    [max 0 (level_width - W)], and nothing but the player's rectangle,
    velocity, ground flag and the camera has changed. *)
Theorem move_player_bounds (keys : Keys) (dt : Q) (g : Game) :
  let g' := move_player keys dt g in
  (player_vel_y g' <= 15)%Q ∧
  0 ≤ camera_offset_x g' ≤ Z.max 0 (level_width g - W) ∧
  unmoved g g'.
Proof. exact (move_player_effect keys dt g). Qed.

Lemma resolve_vertical_ground (g : Game) (r : Rect) :
  (player_on_ground g = true → player_vel_y g = 0%Q) →
  player_on_ground (resolve_against vertical g r) = true →
  player_vel_y (resolve_against vertical g r) = 0%Q.
Proof.
  intros Hinv. unfold resolve_against.
  destruct (R.colliderect (player_rect g) r); [reflexivity|exact Hinv].
Qed.

Lemma foldl_resolve_vertical_ground (l : list Rect) (g : Game) :
  (player_on_ground g = true → player_vel_y g = 0%Q) →
  player_on_ground (foldl (resolve_against vertical) g l) = true →
  player_vel_y (foldl (resolve_against vertical) g l) = 0%Q.
Proof.
  revert g. induction l as [|r l IH]; intros g Hinv; [exact Hinv|].
  cbn [foldl]. apply IH. apply resolve_vertical_ground. exact Hinv.
Qed.

(** X11: a tick's move leaves the player on the ground only with the
    vertical velocity zeroed: the ground flag is set by a downward
    collision alone, which also stops the fall. *)
Theorem on_ground_means_stopped (keys : Keys) (dt : Q) (g : Game) :
  player_on_ground (move_player keys dt g) = true →
  player_vel_y (move_player keys dt g) = 0%Q.
Proof.
  rewrite move_player_split.
  destruct (before_vertical_pass_facts keys dt g) as (_ & _ & Hg).
  revert Hg. generalize (before_vertical_pass keys dt g). intros g0 Hg.
  unfold handle_level_collisions.
  generalize (query (spatial_grid g0) (player_rect g0)). intros l.
  assert (Hinv : player_on_ground g0 = true → player_vel_y g0 = 0%Q)
    by (rewrite Hg; discriminate).
  pose proof (foldl_resolve_vertical_ground l g0 Hinv) as Hf.
  revert Hf. generalize (foldl (resolve_against vertical) g0 l). intros g1 Hf.
  exact Hf.
Qed.

Lemma on_ground_means_stopped_witness :
  player_vel_y (move_player (pressed []) DT sunk_into_ground) = 0%Q.
Proof.
  apply (on_ground_means_stopped (pressed []) DT sunk_into_ground).
  vm_compute. reflexivity.
Defined.

(** ** Coins and the goal *)

Lemma py_remove_first {A : Type} (eqb : A → A → bool) (x : A) (pre l : list A) :
  (∀ y, y ∈ pre → eqb y x = false) → eqb x x = true →
  py_remove eqb x (pre ++ x :: l) = Some (pre ++ l).
Proof.
  intros Hpre Hx. induction pre as [|y pre IH]; cbn [py_remove app].
  - by rewrite Hx.
  - rewrite (Hpre y) by (apply elem_of_cons; by left).
    rewrite IH; [reflexivity|]. intros z Hz. apply Hpre, elem_of_cons. by right.
Qed.

Lemma collect_coin_hit (g : Game) (c : Rect) :
  R.colliderect (player_rect g) c = true →
  collect_coin g c =
    (l ← py_remove rect_eqb c (coin_rects g);
     Some (set_score (score g + 50) (set_coin_rects l g))).
Proof. intros Hc. unfold collect_coin. by rewrite Hc. Qed.

Lemma collect_coin_miss (g : Game) (c : Rect) :
  R.colliderect (player_rect g) c = false → collect_coin g c = Some g.
Proof. intros Hc. unfold collect_coin. by rewrite Hc. Qed.

(** The coin loop, started anywhere in the list: [pre] are the coins
    already passed over and kept. *)
Lemma collect_coin_loop (l pre : list Rect) (g : Game) :
  coin_rects g = pre ++ l →
  (∀ c, c ∈ pre → R.colliderect (player_rect g) c = false) →
  ∃ g', py_for collect_coin g l = Some g' ∧
        coin_rects g' =
          pre ++ filter (λ c, R.colliderect (player_rect g) c = false) l ∧
        score g' =
          score g + 50 * (Z.of_nat (length l) -
            Z.of_nat (length (filter (λ c, R.colliderect (player_rect g) c = false) l))) ∧
        player_rect g' = player_rect g ∧ lives g' = lives g ∧
        game_state g' = game_state g ∧ time_left g' = time_left g.
Proof.
  revert pre g. induction l as [|c l IH]; intros pre g Hcoins Hpre.
  - exists g. cbn [py_for]. rewrite filter_nil. cbn [length]. repeat split; [done|lia].
  - cbn [py_for].
    destruct (R.colliderect (player_rect g) c) eqn:Hc.
    + rewrite (collect_coin_hit g c Hc). rewrite Hcoins.
      rewrite (py_remove_first rect_eqb c pre l).
      2:{ intros y Hy. unfold rect_eqb. apply bool_decide_eq_false_2.
          intros ->. rewrite (Hpre c Hy) in Hc. discriminate. }
      2:{ unfold rect_eqb. by apply bool_decide_eq_true_2. }
      cbn [mbind option_bind].
      destruct (IH pre (set_score (score g + 50) (set_coin_rects (pre ++ l) g)))
        as (g' & Hrun & Hrest & Hscore & Hp & Hl & Hs & Ht); [reflexivity|exact Hpre|].
      exists g'. split; [exact Hrun|].
      cbn [player_rect set_score set_coin_rects score lives game_state time_left]
        in Hrest, Hscore, Hp, Hl, Hs, Ht.
      rewrite filter_cons_False by (rewrite Hc; discriminate).
      split; [exact Hrest|]. split; [|done].
      rewrite Hscore. cbn [length]. lia.
    + rewrite (collect_coin_miss g c Hc). cbn [mbind option_bind].
      destruct (IH (pre ++ [c]) g) as (g' & Hrun & Hrest & Hscore & Hp & Hl & Hs & Ht).
      { rewrite Hcoins, <- app_assoc. reflexivity. }
      { intros y [Hy| ->%list_elem_of_singleton]%elem_of_app; [by apply Hpre|exact Hc]. }
      exists g'. split; [exact Hrun|].
      rewrite filter_cons_True by exact Hc.
      split; [rewrite Hrest, <- app_assoc; reflexivity|]. split; [|done].
      rewrite Hscore. cbn [length]. lia.
Qed.

(** X12: the coin loop never raises.  It removes exactly the coins that
    overlap the player, keeps the others in their order, adds 50 points for
    each removed coin, and moves nothing. *)
Theorem coins_collected (g : Game) :
  ∃ g', collect_coins g = Some g' ∧
        coin_rects g' =
          filter (λ c, R.colliderect (player_rect g) c = false) (coin_rects g) ∧
        score g' =
          score g + 50 * (Z.of_nat (length (coin_rects g)) -
                          Z.of_nat (length (coin_rects g'))) ∧
        player_rect g' = player_rect g ∧ lives g' = lives g ∧
        game_state g' = game_state g ∧ time_left g' = time_left g.
Proof.
  destruct (collect_coin_loop (coin_rects g) [] g eq_refl)
    as (g' & Hrun & Hrest & Hscore & Hrem).
  { intros c Hc. by apply not_elem_of_nil in Hc. }
  exists g'. split; [exact Hrun|]. split; [exact Hrest|].
  split; [|exact Hrem]. rewrite Hscore, Hrest. reflexivity.
Qed.

Lemma Qtrunc_floor (t : Q) : (0 <= t)%Q → Qtrunc t = Qfloor t.
Proof.
  destruct t as [n d]. unfold Qle, Qtrunc, Qfloor. cbn [Qnum Qden].
  intros Hn. apply Z.quot_div_nonneg; lia.
Qed.

Lemma time_bonus (t : Q) :
  ((0 <= t)%Q → py_int (py_max2 0 t) = Qfloor t) ∧
  ((t <= 0)%Q → py_int (py_max2 0 t) = 0).
Proof.
  unfold py_max2, py_int. destruct (Qlt_bool 0 t) eqn:E.
  - apply Qlt_bool_iff in E. split.
    + intros _. apply Qtrunc_floor. by apply Qlt_le_weak.
    + intros Hle. exfalso. exact (Qlt_not_le _ _ E Hle).
  - apply Qlt_bool_false_iff in E. split.
    + intros Hge.
      assert (Ht : (t == 0)%Q) by (apply Qle_antisym; assumption).
      destruct t as [n d]. unfold Qeq in Ht. cbn [Qnum Qden] in Ht.
      assert (n = 0) by lia. subst n. reflexivity.
    + intros _. reflexivity.
Qed.

(** X13: when the player overlaps the goal at the goal check, the tick
    ends there with the victory transition: the mode is victory, and the
    invincibility timer, the time left, the lives and the player's
    rectangle are those of the moment of the check (no timer tick, no
    time-out, no fall).  The score grows by ten times the whole seconds
    left, and by nothing when no time is left.  Without a level
    specification the tick does nothing at all. *)
Theorem goal_ends_the_tick (keys : Keys) (dt : Q) (g g1 : Game) :
  (current_level_spec g = None → update_level_gameplay keys dt g = Some g) ∧
  (is_Some (current_level_spec g) →
   before_goal_check keys dt g = Some g1 → goal_reached g1 = true →
   let g' := level_complete_transition g1 in
   update_level_gameplay keys dt g = Some g' ∧
   game_state g' = victory ∧
   invincibility_timer g' = invincibility_timer g1 ∧
   time_left g' = time_left g1 ∧ lives g' = lives g1 ∧
   player_rect g' = player_rect g1 ∧
   ((0 <= time_left g1)%Q → score g' = score g1 + Qfloor (time_left g1) * 10) ∧
   ((time_left g1 <= 0)%Q → score g' = score g1)).
Proof.
  split.
  - intros Hn. unfold update_level_gameplay. by rewrite Hn.
  - intros [spec Hspec] Hpre Hgoal. cbv zeta.
    split.
    { unfold update_level_gameplay. rewrite Hspec, Hpre. cbn [mbind option_bind].
      by rewrite Hgoal. }
    unfold level_complete_transition.
    cbn [game_state invincibility_timer time_left lives player_rect score
         set_score set_game_state].
    destruct (time_bonus (time_left g1)) as [Hpos Hneg].
    repeat split.
    + intros Ht. by rewrite (Hpos Ht).
    + intros Ht. rewrite (Hneg Ht). lia.
Qed.

(** The player of level 1-1 stands in the goal. *)
Definition in_the_goal : Game :=
  set_player_rect (mkRect 1226 344 16 24) level_1_1_start.

Definition in_the_goal_checked : Game :=
  default init_game (before_goal_check (pressed []) DT in_the_goal).

Lemma goal_ends_the_tick_witness :
  update_level_gameplay (pressed []) DT in_the_goal
    = Some (level_complete_transition in_the_goal_checked) ∧
  game_state (level_complete_transition in_the_goal_checked) = victory ∧
  score (level_complete_transition in_the_goal_checked) = 3000.
Proof.
  destruct (goal_ends_the_tick (pressed []) DT in_the_goal in_the_goal_checked)
    as [_ Hgoal].
  destruct Hgoal as (Hrun & Hmode & _ & _ & _ & _ & Hscore & _).
  - eexists. reflexivity.
  - vm_compute. reflexivity.
  - vm_compute. reflexivity.
  - split; [exact Hrun|]. split; [exact Hmode|].
    rewrite Hscore; [vm_compute; reflexivity|]. vm_compute. discriminate.
Defined.

(** ** An invariant of the frame loop *)

(** What a tick of level play needs and keeps while the level goes on. *)
Definition tick_ok (g : Game) : Prop :=
  paused g = false ∧ is_Some (current_level_spec g) ∧ (0 < time_left g)%Q.

(** What a tick leaves behind: the time is positive unless the mode has
    left level play. *)
Definition weak_ok (g : Game) : Prop :=
  paused g = false ∧ is_Some (current_level_spec g) ∧
  (game_state g = level → (0 < time_left g)%Q).

Lemma tick_ok_weak (g : Game) : tick_ok g → weak_ok g.
Proof. intros (Hp & Hs & Ht). split; [exact Hp|]. split; [exact Hs|]. intros _. exact Ht. Qed.

Lemma weak_ok_loop_inv (g : Game) : weak_ok g → loop_inv g.
Proof.
  intros (Hp & Hs & Ht). split.
  - intros Hl. split; [by apply Ht|exact Hs].
  - intros Hp'. congruence.
Qed.

Lemma load_level_tick_ok (spec : LevelSpec) (g : Game) :
  tick_ok (load_level_from_spec spec g).
Proof.
  rewrite load_level_record. split; [reflexivity|]. split; [by eexists|reflexivity].
Qed.

Lemma handle_player_death_tick_ok (g : Game) :
  tick_ok g → tick_ok (handle_player_death g).
Proof.
  intros (Hp & Hs & Ht). rewrite handle_player_death_unfold.
  destruct (lives g - 1 <=? 0); [split; [exact Hp|]; split; [exact Hs|exact Ht]|].
  destruct (current_level_spec g) as [spec|] eqn:E.
  - apply load_level_tick_ok.
  - destruct Hs as [? Hs]. discriminate.
Qed.

Lemma handle_player_death_weak_ok (g : Game) :
  paused g = false → is_Some (current_level_spec g) →
  weak_ok (handle_player_death g).
Proof.
  intros Hp Hs. rewrite handle_player_death_unfold.
  destruct (lives g - 1 <=? 0).
  - split; [exact Hp|]. split; [exact Hs|]. discriminate.
  - destruct (current_level_spec g) as [spec|] eqn:E.
    + apply tick_ok_weak, load_level_tick_ok.
    + destruct Hs as [? Hs]. discriminate.
Qed.

Lemma handle_player_hurt_tick_ok (g : Game) :
  tick_ok g → tick_ok (handle_player_hurt g).
Proof.
  intros Hok. unfold handle_player_hurt.
  destruct (player_state g); [by apply handle_player_death_tick_ok| |];
    rewrite spls_small_fields; exact Hok.
Qed.

Lemma write_enemy_tick_ok (id0 pos : nat) (e : Enemy) (g : Game) :
  tick_ok g → tick_ok (write_enemy id0 pos e g).
Proof. intros Hok. unfold write_enemy. case_decide; exact Hok. Qed.

Lemma enemy_contact_tick_ok (id0 pos : nat) (e : Enemy) (g : Game) :
  tick_ok g → tick_ok (enemy_contact id0 pos e g).
Proof.
  intros Hok. unfold enemy_contact. destruct (is_stomp g e).
  - apply (write_enemy_tick_ok id0 pos (set_e_state stomped e)) in Hok.
    revert Hok. generalize (write_enemy id0 pos (set_e_state stomped e) g).
    intros g1 Hok. exact Hok.
  - destruct (invincibility_timer g <=? 0); [by apply handle_player_hurt_tick_ok|exact Hok].
Qed.

Lemma visit_enemy_tick_ok (dt : Q) (id0 pos pos' : nat) (g g' : Game) (e : Enemy) :
  tick_ok g → visit_enemy dt id0 (g, pos) e = Some (g', pos') → tick_ok g'.
Proof.
  intros Hok. unfold visit_enemy. destruct (e_state e).
  - generalize (enemy_move dt (level_width g) e). intros e1.
    apply (write_enemy_tick_ok id0 pos e1) in Hok.
    revert Hok. generalize (write_enemy id0 pos e1 g). intros g1 Hok.
    destruct (R.colliderect (player_rect g1) (e_rect e1)); intros [= <- _];
      [by apply enemy_contact_tick_ok|exact Hok].
  - destruct (py_remove enemy_eqb e (active_enemies g)) as [l|]; [|discriminate].
    intros [= <- _]. exact Hok.
Qed.

Lemma enemy_loop_tick_ok (dt : Q) (id0 : nat) (l : list Enemy) (g g' : Game)
    (pos pos' : nat) :
  tick_ok g → py_for (visit_enemy dt id0) (g, pos) l = Some (g', pos') → tick_ok g'.
Proof.
  revert g pos. induction l as [|e l IH]; intros g pos Hok; cbn [py_for].
  - intros [= <- _]. exact Hok.
  - destruct (visit_enemy dt id0 (g, pos) e) as [[g1 p1]|] eqn:E; [|discriminate].
    cbn [mbind option_bind]. apply IH. by eapply visit_enemy_tick_ok.
Qed.

Lemma update_enemies_tick_ok (dt : Q) (g g' : Game) :
  tick_ok g → update_enemies dt g = Some g' → tick_ok g'.
Proof.
  intros Hok. unfold update_enemies.
  destruct (py_for (visit_enemy dt (active_enemies_id g)) (g, 0%nat) (active_enemies g))
    as [[g1 p1]|] eqn:E; [|discriminate].
  intros [= <-]. by eapply enemy_loop_tick_ok.
Qed.

Lemma collect_coins_tick_ok (l : list Rect) (g g' : Game) :
  tick_ok g → py_for collect_coin g l = Some g' → tick_ok g'.
Proof.
  revert g. induction l as [|c l IH]; intros g Hok; cbn [py_for].
  - intros [= <-]. exact Hok.
  - destruct (R.colliderect (player_rect g) c) eqn:Hc.
    + rewrite (collect_coin_hit g c Hc).
      destruct (py_remove rect_eqb c (coin_rects g)) as [l0|]; [|discriminate].
      cbn [mbind option_bind]. apply IH. exact Hok.
    + rewrite (collect_coin_miss g c Hc). cbn [mbind option_bind]. apply IH. exact Hok.
Qed.

Lemma move_player_tick_ok (keys : Keys) (dt : Q) (g : Game) :
  tick_ok g → tick_ok (move_player keys dt g).
Proof.
  intros (Hp & Hs & Ht).
  destruct (move_player_effect keys dt g) as (_ & _ & Hu).
  revert Hu. generalize (move_player keys dt g). intros g1 Hu.
  destruct Hu as (_ & Hp1 & _ & _ & _ & _ & _ & Hs1 & _ & _ & Ht1 & _).
  split; [congruence|]. split; [by rewrite Hs1|by rewrite Ht1].
Qed.

Lemma before_goal_check_tick_ok (keys : Keys) (dt : Q) (g g' : Game) :
  tick_ok g → before_goal_check keys dt g = Some g' → tick_ok g'.
Proof.
  intros Hok. unfold before_goal_check.
  apply (move_player_tick_ok keys dt) in Hok.
  revert Hok. generalize (move_player keys dt g). intros g1 Hok.
  destruct (update_enemies dt g1) as [g2|] eqn:E; [|discriminate].
  cbn [mbind option_bind]. unfold collect_coins.
  apply collect_coins_tick_ok. by eapply update_enemies_tick_ok.
Qed.

Lemma after_goal_check_weak_ok (dt : Q) (g : Game) :
  tick_ok g → weak_ok (after_goal_check dt g).
Proof.
  intros (Hp & Hs & _). unfold after_goal_check.
  set (g1 := if 0 <? invincibility_timer g then _ else g).
  assert (H1 : paused g1 = false ∧ is_Some (current_level_spec g1)).
  { subst g1. destruct (0 <? invincibility_timer g); split; assumption. }
  revert H1. generalize g1. clear g1. intros g1 [Hp1 Hs1]. cbv zeta.
  set (g2 := set_time_left (time_left g1 - dt) g1).
  assert (H2 : paused g2 = false ∧ is_Some (current_level_spec g2)) by (split; assumption).
  revert H2. generalize g2. clear g2. intros g2 [Hp2 Hs2].
  set (g3 := if Qle_bool (time_left g2) 0 then handle_player_death g2 else g2).
  assert (H3 : weak_ok g3).
  { subst g3. destruct (Qle_bool (time_left g2) 0) eqn:E.
    - by apply handle_player_death_weak_ok.
    - split; [exact Hp2|]. split; [exact Hs2|]. intros _.
      apply Qnot_le_lt. intros Hle. apply Qle_bool_iff in Hle. congruence. }
  revert H3. generalize g3. clear g3. intros g3 H3.
  destruct (H <? R.top (player_rect g3)); [|exact H3].
  destruct H3 as (Hp3 & Hs3 & _). by apply handle_player_death_weak_ok.
Qed.

Lemma update_level_gameplay_weak_ok (keys : Keys) (dt : Q) (g g' : Game) :
  tick_ok g → update_level_gameplay keys dt g = Some g' → weak_ok g'.
Proof.
  intros Hok. unfold update_level_gameplay.
  destruct (current_level_spec g) as [spec|]; [|intros [= <-]; by apply tick_ok_weak].
  destruct (before_goal_check keys dt g) as [g1|] eqn:E; [|discriminate].
  cbn [mbind option_bind].
  apply (before_goal_check_tick_ok keys dt g g1 Hok) in E.
  destruct (goal_reached g1); intros [= <-].
  - destruct E as (Hp & Hs & _). split; [exact Hp|]. split; [exact Hs|]. discriminate.
  - by apply after_goal_check_weak_ok.
Qed.

(** ** Events *)

Ltac event_cases g k Hev :=
  destruct g as [gs pa pfs smw cw cn tm cd spec sc lv tl ps inv pr vx vy og
                 cam lw plat blk coin en enid goal grid];
  destruct k, gs, pa, pfs;
  vm_compute in Hev; try discriminate Hev; injection Hev as <-.

(** X14: event handling changes score and lives in one case only, the
    Return key on the game-over screen, which sets them to 0 and 3. *)
Theorem events_keep_score_and_lives (g g' : Game) (event : Event) :
  handle_event g event = Some g' →
  (score g' = score g ∧ lives g' = lives g) ∨
  (game_state g = game_over ∧ event = KEYDOWN K_RETURN ∧ score g' = 0 ∧ lives g' = 3).
Proof.
  intros Hev. destruct event as [|k|]; [discriminate| |injection Hev as <-; by left].
  event_cases g k Hev; cbn [score lives game_state];
    first [left; split; reflexivity | right; repeat split].
Qed.

Lemma events_keep_score_and_lives_witness :
  (score (load_overworld_state level_1_1_start) = score level_1_1_start ∧
   lives (load_overworld_state level_1_1_start) = lives level_1_1_start) ∨
  (game_state level_1_1_start = game_over ∧ KEYDOWN K_ESCAPE = KEYDOWN K_RETURN ∧
   score (load_overworld_state level_1_1_start) = 0 ∧
   lives (load_overworld_state level_1_1_start) = 3).
Proof.
  apply (events_keep_score_and_lives level_1_1_start
           (load_overworld_state level_1_1_start) (KEYDOWN K_ESCAPE)).
  reflexivity.
Defined.

(** ** The loop invariant *)

Lemma handle_event_loop_inv (g g' : Game) (event : Event) :
  loop_inv g → handle_event g event = Some g' → loop_inv g'.
Proof.
  intros Hinv Hev.
  destruct event as [|k|]; [discriminate| |injection Hev as <-; exact Hinv].
  unfold loop_inv, level_ok in *.
  event_cases g k Hev;
    cbn [game_state paused paused_from_state time_left current_level_spec] in *;
    (split; intros; try discriminate; intuition).
Qed.

Lemma handle_events_loop_inv (events : list Event) (g g' : Game) :
  loop_inv g → handle_events g events = Some g' → loop_inv g'.
Proof.
  revert g. induction events as [|ev events IH]; intros g Hinv; cbn [handle_events].
  - intros [= <-]. exact Hinv.
  - destruct (handle_event g ev) as [g1|] eqn:E; [|discriminate].
    cbn [mbind option_bind]. apply IH. by eapply handle_event_loop_inv.
Qed.

(** In the overworld navigation either loads a level or stays in the
    overworld. *)
Lemma navigation_loop_inv (specs : gmap (Z * Z) LevelSpec) (keys : Keys) (dt : Q)
    (g g' : Game) :
  game_state g = overworld → paused g = false →
  update_overworld_map_navigation specs keys dt g = Some g' → loop_inv g'.
Proof.
  intros Hm Hp. unfold update_overworld_map_navigation. cbv zeta.
  cbn [ow_input_delay_timer set_ow_input_delay_timer].
  assert (Hstay : ∀ g1 : Game, game_state g1 = overworld → paused g1 = false →
                  loop_inv g1).
  { intros g1 Hm1 Hp1. split; intros; congruence. }
  destruct (Qlt_bool 0 (ow_input_delay_timer g - dt)).
  { intros [= <-]. by apply Hstay. }
  cbn [smw_map_data current_world_on_map current_node_on_map
       set_ow_input_delay_timer].
  destruct (py_index (smw_map_data g) (current_world_on_map g)) as [world|];
    cbn [mbind option_bind]; [|discriminate].
  destruct (keys K_RIGHT).
  { destruct (Z.of_nat (length (nodes world)) =? 0);
      cbn [mbind option_bind]; [discriminate|]. intros [= <-]. by apply Hstay. }
  destruct (keys K_LEFT).
  { destruct (Z.of_nat (length (nodes world)) =? 0);
      cbn [mbind option_bind]; [discriminate|]. intros [= <-]. by apply Hstay. }
  destruct (keys K_UP).
  { cbn [mbind option_bind]. intros [= <-]. by apply Hstay. }
  destruct (keys K_DOWN).
  { cbn [mbind option_bind]. intros [= <-]. by apply Hstay. }
  destruct (keys K_RETURN || keys K_SPACE).
  - destruct (py_index (nodes world) (current_node_on_map g)) as [nd|];
      cbn [mbind option_bind]; [|discriminate].
    destruct (specs !! level_id nd) as [spec|].
    + cbn [mbind option_bind].
      generalize (load_level_tick_ok spec
                    (set_ow_input_delay_timer (ow_input_delay_timer g - dt) g)).
      generalize (load_level_from_spec spec
                    (set_ow_input_delay_timer (ow_input_delay_timer g - dt) g)).
      intros g1 Hok [= <-]. apply weak_ok_loop_inv, tick_ok_weak. exact Hok.
    + cbn [mbind option_bind]. intros [= <-]. by apply Hstay.
  - cbn [mbind option_bind]. intros [= <-]. by apply Hstay.
Qed.

Lemma dispatch_loop_inv (specs : gmap (Z * Z) LevelSpec) (keys : Keys) (dt : Q)
    (g g' : Game) :
  loop_inv g → dispatch specs keys dt g = Some g' → loop_inv g'.
Proof.
  intros Hinv. unfold dispatch.
  destruct (paused g) eqn:Hp; [intros [= <-]; exact Hinv|].
  destruct (game_state g) eqn:Hm.
  - by apply navigation_loop_inv.
  - destruct Hinv as [Hlevel _]. destruct (Hlevel Hm) as [Ht Hs].
    destruct (current_level_spec g) as [spec|] eqn:Hspec.
    + intros Hrun. apply weak_ok_loop_inv.
      apply (update_level_gameplay_weak_ok keys dt g g'); [|exact Hrun].
      split; [exact Hp|]. split; [rewrite Hspec; by eexists|exact Ht].
    + intros [= <-]. split; intros; discriminate.
  - intros [= <-]. exact Hinv.
  - intros [= <-]. exact Hinv.
Qed.

(** The invariant holds in every reachable state. *)
Lemma reachable_level_ok (specs : gmap (Z * Z) LevelSpec) (g : Game) :
  reachable specs g → loop_inv g.
Proof.
  induction 1 as [|g events keys dt g' Hreach IH Hframe].
  - split; intros; discriminate.
  - unfold frame in Hframe.
    destruct (handle_events g events) as [g1|] eqn:Hev; [|discriminate].
    destruct (dispatch specs keys dt g1) as [g2|] eqn:Hd; [|discriminate].
    injection Hframe as <-.
    eapply dispatch_loop_inv; [|exact Hd].
    by eapply handle_events_loop_inv.
Qed.

(** X15: in every state the frame loop can reach, whatever the events,
    keys and frame times, level play has a loaded level specification and
    a positive time left; and so does the mode a pause remembers.  A level
    tick therefore never starts with the time run out. *)
Theorem reachable_loop_inv (specs : gmap (Z * Z) LevelSpec) (g : Game) :
  reachable specs g → loop_inv g.
Proof. exact (reachable_level_ok specs g). Qed.

(** The state after confirming the first node of the overworld. *)
Definition entered_level : Game :=
  match frame sample_level_specs init_game [] (pressed [K_RETURN]) DT with
  | Running g => g
  | _ => init_game
  end.

Lemma reachable_loop_inv_witness :
  game_state entered_level = level ∧ loop_inv entered_level.
Proof.
  split; [vm_compute; reflexivity|].
  apply (reachable_loop_inv sample_level_specs).
  apply (reach_frame sample_level_specs init_game [] (pressed [K_RETURN]) DT
           entered_level); [apply reach_init|].
  vm_compute. reflexivity.
Defined.

(** X16: in level play as the frame loop reaches it, a tick that finds
    the player in the goal ends in victory with ten points for every whole
    second left: the time left is positive at the goal check, so the bonus
    is never cut off at zero.  This holds for the tick of every frame from
    a reachable state, also when an event of the same frame has just
    resumed the game or otherwise changed the state the tick starts
    from. *)
Theorem goal_bonus_in_play (specs : gmap (Z * Z) LevelSpec) (events : list Event)
    (keys : Keys) (dt : Q) (g0 g g1 : Game) :
  reachable specs g0 → handle_events g0 events = Some g →
  paused g = false → game_state g = level →
  before_goal_check keys dt g = Some g1 → goal_reached g1 = true →
  ∃ g', dispatch specs keys dt g = Some g' ∧
        frame specs g0 events keys dt = Running g' ∧
        game_state g' = victory ∧
        (0 < time_left g1)%Q ∧
        score g' = score g1 + Qfloor (time_left g1) * 10.
Proof.
  intros Hreach Hev Hp Hm Hpre Hgoal.
  pose proof (handle_events_loop_inv events g0 g
                (reachable_level_ok specs g0 Hreach) Hev) as [Hlevel _].
  destruct (Hlevel Hm) as [Ht [spec Hspec]].
  assert (Hok : tick_ok g)
    by (split; [exact Hp|]; split; [rewrite Hspec; by eexists|exact Ht]).
  destruct (before_goal_check_tick_ok keys dt g g1 Hok Hpre) as (_ & _ & Ht1).
  assert (Hd : dispatch specs keys dt g = Some (level_complete_transition g1)).
  { unfold dispatch. rewrite Hp, Hm, Hspec.
    unfold update_level_gameplay. rewrite Hspec, Hpre. cbn [mbind option_bind].
    by rewrite Hgoal. }
  exists (level_complete_transition g1).
  split; [exact Hd|].
  split; [unfold frame; by rewrite Hev, Hd|].
  split; [reflexivity|]. split; [exact Ht1|].
  unfold level_complete_transition.
  cbn [score time_left set_score set_game_state].
  destruct (time_bonus (time_left g1)) as [Hpos _].
  rewrite Hpos by (by apply Qlt_le_weak). reflexivity.
Qed.

(** Level 1-1 paused right after it was entered. *)
Definition paused_in_level : Game :=
  match frame sample_level_specs entered_level [KEYDOWN K_p] (pressed []) DT with
  | Running g => g
  | _ => init_game
  end.

(** The state the tick starts from when that pause is ended. *)
Definition resumed_in_level : Game :=
  default init_game (handle_events paused_in_level [KEYDOWN K_p]).

Definition dash_to_goal_checked : Game :=
  default init_game
    (before_goal_check (pressed [K_RIGHT]) (39 # 10) resumed_in_level).

Lemma goal_bonus_in_play_witness :
  ∃ g', dispatch sample_level_specs (pressed [K_RIGHT]) (39 # 10) resumed_in_level
          = Some g' ∧
        frame sample_level_specs paused_in_level [KEYDOWN K_p] (pressed [K_RIGHT])
          (39 # 10) = Running g' ∧
        game_state g' = victory ∧ (0 < time_left dash_to_goal_checked)%Q ∧
        score g' = score dash_to_goal_checked +
                   Qfloor (time_left dash_to_goal_checked) * 10.
Proof.
  apply (goal_bonus_in_play sample_level_specs [KEYDOWN K_p] (pressed [K_RIGHT])
           (39 # 10) paused_in_level resumed_in_level dash_to_goal_checked).
  - apply (reach_frame sample_level_specs entered_level [KEYDOWN K_p] (pressed []) DT
             paused_in_level); [|vm_compute; reflexivity].
    apply (reach_frame sample_level_specs init_game [] (pressed [K_RETURN]) DT
             entered_level); [apply reach_init|]. vm_compute. reflexivity.
  - vm_compute. reflexivity.
  - vm_compute. reflexivity.
  - vm_compute. reflexivity.
  - vm_compute. reflexivity.
  - vm_compute. reflexivity.
Defined.

(** ** A reload inside the enemy loop *)

Definition all_walking (l : list Enemy) : Prop := ∀ e, e ∈ l → e_state e = walking.

(** The enemy loop after a reload: the game's list is a newer one than the
    list the loop copied, and all its enemies walk. *)
Definition detached (id0 : nat) (g : Game) : Prop :=
  (id0 < active_enemies_id g)%nat ∧ all_walking (active_enemies g).

Lemma spawn_enemy_walking (d : Z * Z * string) : e_state (spawn_enemy d) = walking.
Proof. destruct d as [[x y] t]. reflexivity. Qed.

Lemma load_level_detached (id0 : nat) (spec : LevelSpec) (g : Game) :
  (id0 ≤ active_enemies_id g)%nat → detached id0 (load_level_from_spec spec g).
Proof.
  intros Hid. rewrite load_level_record. split; [cbn [active_enemies_id]; lia|].
  cbn [active_enemies]. intros e He.
  apply list_elem_of_fmap in He as (d & -> & _). apply spawn_enemy_walking.
Qed.

Lemma py_remove_none {A : Type} (eqb : A → A → bool) (x : A) (l : list A) :
  (∀ y, y ∈ l → eqb y x = false) → py_remove eqb x l = None.
Proof.
  intros Hl. induction l as [|y l IH]; [reflexivity|].
  cbn [py_remove]. rewrite (Hl y) by (apply elem_of_cons; by left).
  rewrite IH; [reflexivity|]. intros z Hz. apply Hl, elem_of_cons. by right.
Qed.

Lemma enemy_eqb_states (a b : Enemy) : e_state a ≠ e_state b → enemy_eqb a b = false.
Proof.
  intros Hne. unfold enemy_eqb.
  apply andb_false_iff. left. apply andb_false_iff. right.
  by apply bool_decide_eq_false_2.
Qed.

Lemma handle_player_death_detached (id0 : nat) (g : Game) :
  detached id0 g → detached id0 (handle_player_death g).
Proof.
  intros Hd. rewrite handle_player_death_unfold.
  destruct (lives g - 1 <=? 0); [exact Hd|].
  destruct (current_level_spec g) as [spec|]; [|exact Hd].
  apply load_level_detached. destruct Hd as [Hid _]. cbn [active_enemies_id
    set_invincibility_timer set_lives]. lia.
Qed.

Lemma handle_player_hurt_detached (id0 : nat) (g : Game) :
  detached id0 g → detached id0 (handle_player_hurt g).
Proof.
  intros Hd. unfold handle_player_hurt.
  destruct (player_state g); [by apply handle_player_death_detached| |];
    rewrite spls_small_fields; exact Hd.
Qed.

Lemma write_enemy_detached (id0 pos : nat) (e : Enemy) (g : Game) :
  detached id0 g → write_enemy id0 pos e g = g.
Proof.
  intros [Hid _]. unfold write_enemy. case_decide; [lia|reflexivity].
Qed.

Lemma visit_walking_detached (dt : Q) (id0 pos : nat) (g : Game) (e : Enemy) :
  detached id0 g → e_state e = walking →
  ∃ g', visit_enemy dt id0 (g, pos) e = Some (g', S pos) ∧ detached id0 g'.
Proof.
  intros Hd Hw. unfold visit_enemy. rewrite Hw.
  generalize (enemy_move dt (level_width g) e). intros e1.
  rewrite (write_enemy_detached id0 pos e1 g Hd).
  destruct (R.colliderect (player_rect g) (e_rect e1)).
  - eexists. split; [reflexivity|]. unfold enemy_contact.
    destruct (is_stomp g e1).
    + rewrite (write_enemy_detached id0 pos _ g Hd). exact Hd.
    + destruct (invincibility_timer g <=? 0); [by apply handle_player_hurt_detached|exact Hd].
  - eexists. split; [reflexivity|exact Hd].
Qed.

Lemma visit_stomped_detached (dt : Q) (id0 pos : nat) (g : Game) (e : Enemy) :
  detached id0 g → e_state e = stomped → visit_enemy dt id0 (g, pos) e = None.
Proof.
  intros [_ Hall] Hs. unfold visit_enemy. rewrite Hs.
  rewrite py_remove_none; [reflexivity|].
  intros y Hy. apply enemy_eqb_states. rewrite (Hall y Hy), Hs. discriminate.
Qed.

Lemma detached_loop_raises (dt : Q) (id0 : nat) (l : list Enemy) (g : Game) (pos : nat) :
  detached id0 g → (∃ e, e ∈ l ∧ e_state e = stomped) →
  py_for (visit_enemy dt id0) (g, pos) l = None.
Proof.
  revert g pos. induction l as [|e l IH]; intros g pos Hd (e0 & Hin & Hs).
  - by apply not_elem_of_nil in Hin.
  - cbn [py_for]. destruct (e_state e) eqn:He.
    + destruct (visit_walking_detached dt id0 pos g e Hd He) as (g' & -> & Hd').
      cbn [mbind option_bind]. apply IH; [exact Hd'|].
      exists e0. split; [|exact Hs].
      apply elem_of_cons in Hin as [->|Hin]; [congruence|exact Hin].
    + by rewrite (visit_stomped_detached dt id0 pos g e Hd He).
Qed.

(** X17: the enemy loop does not survive a reload followed by a stomped
    enemy.  When the level has been reloaded while the loop runs over its
    copy of the enemy list, and a stomped enemy is still to come in that
    copy, the attempt to remove it from the new list raises (there is no
    equal element): the tick ends with an exception. *)
Theorem reload_then_stomped_raises (dt : Q) (id0 pos : nat) (spec : LevelSpec)
    (g : Game) (rest : list Enemy) :
  (id0 ≤ active_enemies_id g)%nat →
  (∃ e, e ∈ rest ∧ e_state e = stomped) →
  py_for (visit_enemy dt id0) (load_level_from_spec spec g, pos) rest = None.
Proof.
  intros Hid Hst. apply detached_loop_raises; [|exact Hst].
  by apply load_level_detached.
Qed.

(** Level 1-1 with a goomba on the small player and, behind it in the
    list, an enemy stomped in the tick before. *)
Definition hurt_before_stomped : Game :=
  set_active_enemies
    [mkEnemy (mkRect 60 336 32 32) "goomba" (-1 # 1) 336 walking 0;
     mkEnemy (mkRect 40 320 32 48) "koopa" (-15 # 10) 320 stomped 0]
    level_1_1_start.

Lemma reload_then_stomped_raises_witness :
  py_for (visit_enemy DT 1)
    (load_level_from_spec level_1_1 hurt_before_stomped, 1%nat)
    [mkEnemy (mkRect 40 320 32 48) "koopa" (-15 # 10) 320 stomped 0] = None.
Proof.
  apply (reload_then_stomped_raises DT 1 1 level_1_1 hurt_before_stomped).
  - vm_compute. lia.
  - eexists. split; [apply elem_of_cons; left; reflexivity|reflexivity].
Defined.

(** The whole tick on that state ends with the exception. *)
Lemma hurt_before_stomped_raises :
  update_level_gameplay (pressed []) DT hurt_before_stomped = None.
Proof. vm_compute. reflexivity. Qed.

(** ** The map cursor *)

(** The overworld map and the cursor on it. *)
Definition map_cursor (g : Game) : list World * Z * Z :=
  (smw_map_data g, current_world_on_map g, current_node_on_map g).

(** The cursor points at a node of a world of the map, and no world of the
    map is empty. *)
Definition map_ok (g : Game) : Prop :=
  (∀ w, w ∈ smw_map_data g → nodes w ≠ []) ∧
  ∃ world, 0 ≤ current_world_on_map g ∧
           smw_map_data g !! Z.to_nat (current_world_on_map g) = Some world ∧
           0 ≤ current_node_on_map g < Z.of_nat (length (nodes world)).

Lemma map_ok_cursor (g g' : Game) : map_cursor g' = map_cursor g → map_ok g → map_ok g'.
Proof.
  unfold map_cursor, map_ok. intros [= H1 H2 H3]. rewrite H1, H2, H3. done.
Qed.

Lemma py_index_valid {A : Type} (l : list A) (i : Z) :
  0 ≤ i < Z.of_nat (length l) → py_index l i = l !! Z.to_nat i.
Proof.
  intros Hi. unfold py_index.
  assert (E : (0 <=? i) && (i <? Z.of_nat (length l)) = true).
  { apply andb_true_iff. split; [apply Z.leb_le|apply Z.ltb_lt]; lia. }
  by rewrite E.
Qed.

Lemma load_level_map_cursor (spec : LevelSpec) (g : Game) :
  map_cursor (load_level_from_spec spec g) = map_cursor g.
Proof. rewrite load_level_record. reflexivity. Qed.

Lemma handle_player_death_map_cursor (g : Game) :
  map_cursor (handle_player_death g) = map_cursor g.
Proof.
  rewrite handle_player_death_unfold.
  destruct (lives g - 1 <=? 0); [reflexivity|].
  destruct (current_level_spec g) as [spec|]; [|reflexivity].
  by rewrite load_level_map_cursor.
Qed.

Lemma handle_player_hurt_map_cursor (g : Game) :
  map_cursor (handle_player_hurt g) = map_cursor g.
Proof.
  unfold handle_player_hurt.
  destruct (player_state g); [apply handle_player_death_map_cursor| |];
    rewrite spls_small_fields; reflexivity.
Qed.

Lemma write_enemy_map_cursor (id0 pos : nat) (e : Enemy) (g : Game) :
  map_cursor (write_enemy id0 pos e g) = map_cursor g.
Proof. unfold write_enemy. case_decide; reflexivity. Qed.

Lemma enemy_contact_map_cursor (id0 pos : nat) (e : Enemy) (g : Game) :
  map_cursor (enemy_contact id0 pos e g) = map_cursor g.
Proof.
  unfold enemy_contact. destruct (is_stomp g e).
  - rewrite <- (write_enemy_map_cursor id0 pos (set_e_state stomped e) g).
    generalize (write_enemy id0 pos (set_e_state stomped e) g). intros g1. reflexivity.
  - destruct (invincibility_timer g <=? 0);
      [apply handle_player_hurt_map_cursor|reflexivity].
Qed.

Lemma visit_enemy_map_cursor (dt : Q) (id0 pos pos' : nat) (g g' : Game) (e : Enemy) :
  visit_enemy dt id0 (g, pos) e = Some (g', pos') → map_cursor g' = map_cursor g.
Proof.
  unfold visit_enemy. destruct (e_state e).
  - generalize (enemy_move dt (level_width g) e). intros e1.
    rewrite <- (write_enemy_map_cursor id0 pos e1 g).
    generalize (write_enemy id0 pos e1 g). intros g1.
    destruct (R.colliderect (player_rect g1) (e_rect e1)); intros [= <- _];
      [apply enemy_contact_map_cursor|reflexivity].
  - destruct (py_remove enemy_eqb e (active_enemies g)) as [l|]; [|discriminate].
    intros [= <- _]. reflexivity.
Qed.

Lemma enemy_loop_map_cursor (dt : Q) (id0 : nat) (l : list Enemy) (g g' : Game)
    (pos pos' : nat) :
  py_for (visit_enemy dt id0) (g, pos) l = Some (g', pos') → map_cursor g' = map_cursor g.
Proof.
  revert g pos. induction l as [|e l IH]; intros g pos; cbn [py_for].
  - intros [= <- _]. reflexivity.
  - destruct (visit_enemy dt id0 (g, pos) e) as [[g1 p1]|] eqn:E; [|discriminate].
    cbn [mbind option_bind]. intros Hrest.
    rewrite (IH _ _ Hrest). by eapply visit_enemy_map_cursor.
Qed.

Lemma update_enemies_map_cursor (dt : Q) (g g' : Game) :
  update_enemies dt g = Some g' → map_cursor g' = map_cursor g.
Proof.
  unfold update_enemies.
  destruct (py_for (visit_enemy dt (active_enemies_id g)) (g, 0%nat) (active_enemies g))
    as [[g1 p1]|] eqn:E; [|discriminate].
  intros [= <-]. by eapply enemy_loop_map_cursor.
Qed.

Lemma collect_coins_map_cursor (l : list Rect) (g g' : Game) :
  py_for collect_coin g l = Some g' → map_cursor g' = map_cursor g.
Proof.
  revert g. induction l as [|c l IH]; intros g; cbn [py_for].
  - intros [= <-]. reflexivity.
  - destruct (R.colliderect (player_rect g) c) eqn:Hc.
    + rewrite (collect_coin_hit g c Hc).
      destruct (py_remove rect_eqb c (coin_rects g)) as [l0|]; [|discriminate].
      cbn [mbind option_bind]. intros Hrest. rewrite (IH _ Hrest). reflexivity.
    + rewrite (collect_coin_miss g c Hc). cbn [mbind option_bind]. apply IH.
Qed.

Lemma move_player_map_cursor (keys : Keys) (dt : Q) (g : Game) :
  map_cursor (move_player keys dt g) = map_cursor g.
Proof.
  destruct (move_player_effect keys dt g) as (_ & _ & Hu).
  revert Hu. generalize (move_player keys dt g). intros g1 Hu.
  destruct Hu as (_ & _ & _ & H1 & H2 & H3 & _).
  unfold map_cursor. by rewrite H1, H2, H3.
Qed.

Lemma before_goal_check_map_cursor (keys : Keys) (dt : Q) (g g' : Game) :
  before_goal_check keys dt g = Some g' → map_cursor g' = map_cursor g.
Proof.
  unfold before_goal_check.
  rewrite <- (move_player_map_cursor keys dt g).
  generalize (move_player keys dt g). intros g1.
  destruct (update_enemies dt g1) as [g2|] eqn:E; [|discriminate].
  cbn [mbind option_bind]. unfold collect_coins. intros Hc.
  rewrite (collect_coins_map_cursor _ _ _ Hc). by apply (update_enemies_map_cursor dt).
Qed.

Lemma after_goal_check_map_cursor (dt : Q) (g : Game) :
  map_cursor (after_goal_check dt g) = map_cursor g.
Proof.
  unfold after_goal_check.
  set (g1 := if 0 <? invincibility_timer g then _ else g).
  assert (H1 : map_cursor g1 = map_cursor g).
  { subst g1. destruct (0 <? invincibility_timer g); reflexivity. }
  rewrite <- H1. generalize g1. clear g1 H1. intros g1. cbv zeta.
  set (g2 := set_time_left (time_left g1 - dt) g1).
  assert (H2 : map_cursor g2 = map_cursor g1) by reflexivity.
  rewrite <- H2. generalize g2. clear g2 H2. intros g2.
  set (g3 := if Qle_bool (time_left g2) 0 then handle_player_death g2 else g2).
  assert (H3 : map_cursor g3 = map_cursor g2).
  { subst g3. destruct (Qle_bool (time_left g2) 0);
      [apply handle_player_death_map_cursor|reflexivity]. }
  rewrite <- H3. generalize g3. clear g3 H3. intros g3.
  destruct (H <? R.top (player_rect g3)); [apply handle_player_death_map_cursor|reflexivity].
Qed.

Lemma update_level_gameplay_map_cursor (keys : Keys) (dt : Q) (g g' : Game) :
  update_level_gameplay keys dt g = Some g' → map_cursor g' = map_cursor g.
Proof.
  unfold update_level_gameplay.
  destruct (current_level_spec g) as [spec|]; [|by intros [= <-]].
  destruct (before_goal_check keys dt g) as [g1|] eqn:E; [|discriminate].
  cbn [mbind option_bind].
  apply before_goal_check_map_cursor in E. rewrite <- E.
  destruct (goal_reached g1); intros [= <-];
    [reflexivity|apply after_goal_check_map_cursor].
Qed.

Lemma handle_event_map_cursor (g g' : Game) (event : Event) :
  handle_event g event = Some g' → map_cursor g' = map_cursor g.
Proof.
  intros Hev. destruct event as [|k|]; [discriminate| |by injection Hev as <-].
  event_cases g k Hev; reflexivity.
Qed.

Lemma handle_events_map_cursor (events : list Event) (g g' : Game) :
  handle_events g events = Some g' → map_cursor g' = map_cursor g.
Proof.
  revert g. induction events as [|ev events IH]; intros g; cbn [handle_events].
  - by intros [= <-].
  - destruct (handle_event g ev) as [g1|] eqn:E; [|discriminate].
    cbn [mbind option_bind]. intros Hrest. rewrite (IH _ Hrest).
    by eapply handle_event_map_cursor.
Qed.

(** Navigation on a valid cursor returns and keeps the cursor valid. *)
Lemma navigation_map_ok (specs : gmap (Z * Z) LevelSpec) (keys : Keys)
    (dt : Q) (g : Game) :
  map_ok g →
  ∃ g', update_overworld_map_navigation specs keys dt g = Some g' ∧ map_ok g' ∧
        smw_map_data g' = smw_map_data g.
Proof.
  intros Hok. pose proof Hok as [Hne (world & Hw0 & Hw & Hn)].
  pose proof (lookup_lt_Some _ _ _ Hw) as Hlen.
  assert (Hpy : py_index (smw_map_data g) (current_world_on_map g) = Some world).
  { rewrite py_index_valid by lia. exact Hw. }
  assert (Hstay : ∀ g1 : Game, map_cursor g1 = map_cursor g →
            map_ok g1 ∧ smw_map_data g1 = smw_map_data g).
  { intros g1 Hc. split; [by apply (map_ok_cursor g)|]. by injection Hc. }
  assert (Hnode : ∀ (g1 : Game) (i : Z),
            smw_map_data g1 = smw_map_data g →
            current_world_on_map g1 = current_world_on_map g →
            current_node_on_map g1 = i `mod` Z.of_nat (length (nodes world)) →
            map_ok g1 ∧ smw_map_data g1 = smw_map_data g).
  { intros g1 i H1 H2 H3. split; [|exact H1]. split; [by rewrite H1|].
    exists world. rewrite H1, H2, H3. split; [exact Hw0|]. split; [exact Hw|].
    apply Z.mod_pos_bound. lia. }
  assert (Hworld : ∀ (g1 : Game) (i : Z),
            smw_map_data g1 = smw_map_data g →
            current_world_on_map g1 = i `mod` Z.of_nat (length (smw_map_data g)) →
            current_node_on_map g1 = 0 →
            map_ok g1 ∧ smw_map_data g1 = smw_map_data g).
  { intros g1 i H1 H2 H3. split; [|exact H1]. split; [by rewrite H1|].
    assert (Hb : 0 ≤ i `mod` Z.of_nat (length (smw_map_data g))
                   < Z.of_nat (length (smw_map_data g)))
      by (apply Z.mod_pos_bound; lia).
    destruct (lookup_lt_is_Some_2 (smw_map_data g)
                (Z.to_nat (i `mod` Z.of_nat (length (smw_map_data g)))))
      as [w' Hw']; [lia|].
    exists w'. rewrite H1, H2, H3. split; [lia|]. split; [exact Hw'|].
    pose proof (Hne w' (list_elem_of_lookup_2 _ _ _ Hw')) as Hne'.
    destruct (nodes w'); [done|]. cbn [length]. lia. }
  unfold update_overworld_map_navigation. cbv zeta.
  cbn [ow_input_delay_timer set_ow_input_delay_timer].
  destruct (Qlt_bool 0 (ow_input_delay_timer g - dt)).
  { eexists. split; [reflexivity|]. by apply Hstay. }
  cbn [smw_map_data current_world_on_map current_node_on_map
       set_ow_input_delay_timer].
  rewrite Hpy. cbn [mbind option_bind].
  assert (Hn0 : (Z.of_nat (length (nodes world)) =? 0) = false)
    by (apply Z.eqb_neq; lia).
  destruct (keys K_RIGHT).
  { rewrite Hn0. cbn [mbind option_bind]. eexists. split; [reflexivity|].
    by apply (Hnode _ (current_node_on_map g + 1)). }
  destruct (keys K_LEFT).
  { rewrite Hn0. cbn [mbind option_bind]. eexists. split; [reflexivity|].
    by apply (Hnode _ (current_node_on_map g - 1 + Z.of_nat (length (nodes world)))). }
  destruct (keys K_UP).
  { cbn [mbind option_bind]. eexists. split; [reflexivity|].
    by apply (Hworld _ (current_world_on_map g + 1)). }
  destruct (keys K_DOWN).
  { cbn [mbind option_bind]. eexists. split; [reflexivity|].
    by apply (Hworld _ (current_world_on_map g - 1
                          + Z.of_nat (length (smw_map_data g)))). }
  destruct (keys K_RETURN || keys K_SPACE).
  - rewrite (py_index_valid (nodes world)) by exact Hn.
    destruct (lookup_lt_is_Some_2 (nodes world) (Z.to_nat (current_node_on_map g)))
      as [nd Hnd]; [lia|].
    rewrite Hnd. cbn [mbind option_bind].
    destruct (specs !! level_id nd) as [spec|].
    + cbn [mbind option_bind].
      generalize (load_level_map_cursor spec
                    (set_ow_input_delay_timer (ow_input_delay_timer g - dt) g)).
      generalize (load_level_from_spec spec
                    (set_ow_input_delay_timer (ow_input_delay_timer g - dt) g)).
      intros g1 Hc. eexists. split; [reflexivity|]. apply Hstay.
      unfold map_cursor in *. exact Hc.
    + cbn [mbind option_bind]. eexists. split; [reflexivity|]. by apply Hstay.
  - cbn [mbind option_bind]. eexists. split; [reflexivity|]. by apply Hstay.
Qed.

(** X18: with the cursor on a node of the map and no empty world on the
    map, overworld navigation never raises, whatever the keys and the
    elapsed time, and leaves the cursor on a node of the map: the modulo
    arithmetic keeps both indices in range and a change of world puts the
    cursor on the first node of the new world. *)
Theorem navigation_keeps_cursor_valid (specs : gmap (Z * Z) LevelSpec) (keys : Keys)
    (dt : Q) (g : Game) :
  map_ok g →
  ∃ g', update_overworld_map_navigation specs keys dt g = Some g' ∧ map_ok g' ∧
        smw_map_data g' = smw_map_data g.
Proof. exact (navigation_map_ok specs keys dt g). Qed.

Lemma init_game_map_ok : map_ok init_game.
Proof.
  split.
  - intros w Hw. change (smw_map_data init_game) with SMW_STYLE_MAP_DATA in Hw.
    unfold SMW_STYLE_MAP_DATA in Hw.
    repeat (apply elem_of_cons in Hw as [->|Hw]; [discriminate|]).
    by apply not_elem_of_nil in Hw.
  - eexists. split; [reflexivity|]. split; [reflexivity|]. vm_compute. split; [discriminate|reflexivity].
Qed.

Lemma navigation_keeps_cursor_valid_witness :
  ∃ g', update_overworld_map_navigation sample_level_specs (pressed [K_DOWN]) DT
          init_game = Some g' ∧ map_ok g' ∧
        smw_map_data g' = smw_map_data init_game.
Proof.
  apply (navigation_keeps_cursor_valid sample_level_specs (pressed [K_DOWN]) DT
           init_game).
  split.
  - intros w Hw. change (smw_map_data init_game) with SMW_STYLE_MAP_DATA in Hw.
    unfold SMW_STYLE_MAP_DATA in Hw.
    repeat (apply elem_of_cons in Hw as [->|Hw]; [discriminate|]).
    by apply not_elem_of_nil in Hw.
  - eexists. split; [reflexivity|]. split; [reflexivity|]. vm_compute.
    split; [discriminate|reflexivity].
Defined.

(** ** The level table *)

(** One step of the loop that fills [GAME_LEVEL_SPECS]. *)
Definition populate_step (placeholder : Z → Z → Node → LevelSpec)
    (m : gmap (Z * Z) LevelSpec) (nd : Node) : gmap (Z * Z) LevelSpec :=
  match m !! level_id nd with
  | Some _ => m
  | None => <[level_id nd := placeholder (level_id nd).1 (level_id nd).2 nd]> m
  end.

Lemma populate_level_specs_fold (placeholder : Z → Z → Node → LevelSpec) :
  populate_level_specs placeholder =
  foldl (populate_step placeholder) level_map_config (w ← SMW_STYLE_MAP_DATA; nodes w).
Proof. reflexivity. Qed.

Lemma populate_step_keeps (ph : Z → Z → Node → LevelSpec)
    (m : gmap (Z * Z) LevelSpec) (nd : Node) (k : Z * Z) (v : LevelSpec) :
  m !! k = Some v → populate_step ph m nd !! k = Some v.
Proof.
  intros Hk. unfold populate_step. destruct (m !! level_id nd) eqn:E; [exact Hk|].
  rewrite lookup_insert_ne; [exact Hk|]. intros Heq. rewrite Heq in E. congruence.
Qed.

Lemma populate_fold_keeps (ph : Z → Z → Node → LevelSpec) (l : list Node)
    (m : gmap (Z * Z) LevelSpec) (k : Z * Z) (v : LevelSpec) :
  m !! k = Some v → foldl (populate_step ph) m l !! k = Some v.
Proof.
  revert m. induction l as [|nd l IH]; intros m Hk; [exact Hk|].
  cbn [foldl]. apply IH. by apply populate_step_keeps.
Qed.

Lemma populate_fold_covers (ph : Z → Z → Node → LevelSpec) (l : list Node)
    (m : gmap (Z * Z) LevelSpec) (nd : Node) :
  nd ∈ l → is_Some (foldl (populate_step ph) m l !! level_id nd).
Proof.
  revert m. induction l as [|nd0 l IH]; intros m Hin.
  - by apply not_elem_of_nil in Hin.
  - cbn [foldl]. apply elem_of_cons in Hin as [->|Hin]; [|by apply IH].
    assert (Hhere : is_Some (populate_step ph m nd0 !! level_id nd0)).
    { unfold populate_step. destruct (m !! level_id nd0) eqn:E.
      - rewrite E. by eexists.
      - rewrite lookup_insert_eq. by eexists. }
    destruct Hhere as [v Hv]. exists v. by apply populate_fold_keeps.
Qed.

Lemma populate_fold_origin (ph : Z → Z → Node → LevelSpec) (l : list Node)
    (m : gmap (Z * Z) LevelSpec) (k : Z * Z) (v : LevelSpec) :
  foldl (populate_step ph) m l !! k = Some v →
  m !! k = Some v ∨ ∃ nd, nd ∈ l ∧ level_id nd = k ∧ v = ph k.1 k.2 nd.
Proof.
  revert m. induction l as [|nd l IH]; intros m Hk; [by left|].
  cbn [foldl] in Hk. destruct (IH _ Hk) as [Hm|(nd' & Hin & Hid & Hv)].
  - unfold populate_step in Hm. destruct (m !! level_id nd) eqn:E; [by left|].
    destruct (decide (level_id nd = k)) as [<-|Hne].
    + rewrite lookup_insert_eq in Hm. right. exists nd.
      split; [apply elem_of_cons; by left|]. split; [reflexivity|congruence].
    + rewrite lookup_insert_ne in Hm by exact Hne. by left.
  - right. exists nd'. split; [apply elem_of_cons; by right|done].
Qed.

(** X19: the level table after the module-level loop.  Every authored
    level keeps its entry, every node of the overworld map has an entry,
    and any entry is either an authored level or the placeholder made for
    a node with that id. *)
Theorem populate_covers_every_node (placeholder : Z → Z → Node → LevelSpec) :
  (∀ k spec, level_map_config !! k = Some spec →
             populate_level_specs placeholder !! k = Some spec) ∧
  (∀ w nd, w ∈ SMW_STYLE_MAP_DATA → nd ∈ nodes w →
           is_Some (populate_level_specs placeholder !! level_id nd)) ∧
  (∀ k spec, populate_level_specs placeholder !! k = Some spec →
             level_map_config !! k = Some spec ∨
             ∃ w nd, w ∈ SMW_STYLE_MAP_DATA ∧ nd ∈ nodes w ∧ level_id nd = k ∧
                     spec = placeholder k.1 k.2 nd).
Proof.
  rewrite populate_level_specs_fold. split; [|split].
  - intros k spec Hk. by apply populate_fold_keeps.
  - intros w nd Hw Hnd. apply populate_fold_covers.
    apply list_elem_of_bind. exists w. by split.
  - intros k spec Hk. apply populate_fold_origin in Hk as [Hk|(nd & Hin & Hid & Hv)];
      [by left|right].
    apply list_elem_of_bind in Hin as (w & Hnd & Hw). by exists w, nd.
Qed.

Lemma populate_covers_every_node_witness :
  sample_level_specs !! (0, 0) = Some level_1_1 ∧
  is_Some (sample_level_specs !! (0, 2)).
Proof.
  pose proof (populate_covers_every_node sample_placeholder) as (Hkeep & Hcover & _).
  split.
  - apply Hkeep. vm_compute. reflexivity.
  - apply (Hcover (mkWorld "Yoshi's Island"%string
                     (nodes (default (mkWorld ""%string [])
                                     (SMW_STYLE_MAP_DATA !! 0%nat))))
                  (typed_node (90, 220) (0, 2) "Ylw Switch" "switch")).
    + apply elem_of_cons. left. reflexivity.
    + apply elem_of_cons. right. apply elem_of_cons. right.
      apply elem_of_cons. left. reflexivity.
Defined.

(** ** The overworld in the frame loop *)

Lemma dispatch_map_ok (specs : gmap (Z * Z) LevelSpec) (keys : Keys) (dt : Q)
    (g g' : Game) :
  map_ok g → dispatch specs keys dt g = Some g' →
  map_ok g' ∧ smw_map_data g' = smw_map_data g.
Proof.
  intros Hok. unfold dispatch.
  assert (Hstay : ∀ g1 : Game, map_cursor g1 = map_cursor g →
            map_ok g1 ∧ smw_map_data g1 = smw_map_data g).
  { intros g1 Hc. split; [by apply (map_ok_cursor g)|]. by injection Hc. }
  destruct (paused g); [intros [= <-]; by apply Hstay|].
  destruct (game_state g).
  - destruct (navigation_map_ok specs keys dt g Hok) as (g1 & -> & H1).
    intros [= <-]. exact H1.
  - destruct (current_level_spec g) as [spec|].
    + intros Hrun. apply Hstay. by apply (update_level_gameplay_map_cursor keys dt).
    + intros [= <-]. by apply Hstay.
  - intros [= <-]. by apply Hstay.
  - intros [= <-]. by apply Hstay.
Qed.

Lemma frame_map_ok (specs : gmap (Z * Z) LevelSpec) (events : list Event)
    (keys : Keys) (dt : Q) (g g' : Game) :
  map_ok g → frame specs g events keys dt = Running g' →
  map_ok g' ∧ smw_map_data g' = smw_map_data g.
Proof.
  intros Hok. unfold frame.
  destruct (handle_events g events) as [g1|] eqn:Hev; [|discriminate].
  apply handle_events_map_cursor in Hev.
  destruct (dispatch specs keys dt g1) as [g2|] eqn:Hd; [|discriminate].
  intros [= <-].
  destruct (dispatch_map_ok specs keys dt g1 g2) as [H1 H2];
    [by apply (map_ok_cursor g)|exact Hd|].
  split; [exact H1|]. rewrite H2. by injection Hev.
Qed.

Lemma reachable_map_ok (specs : gmap (Z * Z) LevelSpec) (g : Game) :
  reachable specs g → map_ok g ∧ smw_map_data g = SMW_STYLE_MAP_DATA.
Proof.
  induction 1 as [|g events keys dt g' _ [IH1 IH2] Hf].
  - split; [apply init_game_map_ok|reflexivity].
  - destruct (frame_map_ok specs events keys dt g g' IH1 Hf) as [H1 H2].
    split; [exact H1|]. by rewrite H2.
Qed.

Lemma after_events_map_ok (specs : gmap (Z * Z) LevelSpec) (events : list Event)
    (g0 g : Game) :
  reachable specs g0 → handle_events g0 events = Some g →
  map_ok g ∧ smw_map_data g = SMW_STYLE_MAP_DATA.
Proof.
  intros Hreach Hev. destruct (reachable_map_ok specs g0 Hreach) as [Hok Hdata].
  apply handle_events_map_cursor in Hev.
  split; [by apply (map_ok_cursor g0)|].
  rewrite <- Hdata. by injection Hev.
Qed.

(** X20: outside level play the frame loop never raises.  In every state
    the loop reaches, in whatever mode, the map is the one the game started
    with and the cursor is on one of its nodes.  So in a frame from such a
    state whose events do not end the loop and leave the game paused or in
    a mode other than level (also when an event of that same frame has
    just switched the mode), the update (overworld navigation, the
    game-over and victory screens, a pause) returns normally whatever the
    keys and the elapsed time. *)
Theorem no_exception_outside_level_play (specs : gmap (Z * Z) LevelSpec)
    (events : list Event) (keys : Keys) (dt : Q) (g g1 : Game) :
  reachable specs g →
  map_ok g ∧ smw_map_data g = SMW_STYLE_MAP_DATA ∧
  (handle_events g events = Some g1 →
   game_state g1 ≠ level ∨ paused g1 = true →
   ∃ g', dispatch specs keys dt g1 = Some g' ∧
         frame specs g events keys dt = Running g').
Proof.
  intros Hreach. destruct (reachable_map_ok specs g Hreach) as [Hok Hdata].
  split; [exact Hok|]. split; [exact Hdata|].
  intros Hev Hmode.
  destruct (after_events_map_ok specs events g g1 Hreach Hev) as [Hok1 _].
  assert (Hd : ∃ g', dispatch specs keys dt g1 = Some g').
  { unfold dispatch. destruct (paused g1) eqn:Hp; [by exists g1|].
    destruct Hmode as [Hm|Hm]; [|discriminate].
    destruct (game_state g1) eqn:Hgs; [|done|by exists g1|by exists g1].
    destruct (navigation_map_ok specs keys dt g1 Hok1) as (g2 & Hnav & _).
    by exists g2. }
  destruct Hd as [g' Hd]. exists g'. split; [exact Hd|].
  unfold frame. by rewrite Hev, Hd.
Qed.

Lemma no_exception_outside_level_play_witness :
  map_ok entered_level ∧ smw_map_data entered_level = SMW_STYLE_MAP_DATA ∧
  ∃ g', dispatch sample_level_specs (pressed [K_LEFT]) (1 # 5)
          (load_overworld_state entered_level) = Some g' ∧
        frame sample_level_specs entered_level [KEYDOWN K_ESCAPE] (pressed [K_LEFT])
          (1 # 5) = Running g'.
Proof.
  pose proof (no_exception_outside_level_play sample_level_specs [KEYDOWN K_ESCAPE]
                (pressed [K_LEFT]) (1 # 5) entered_level
                (load_overworld_state entered_level)) as Hframe.
  destruct Hframe as (Hok & Hdata & Hrun).
  - apply (reach_frame sample_level_specs init_game [] (pressed [K_RETURN]) DT
             entered_level); [apply reach_init|]. vm_compute. reflexivity.
  - split; [exact Hok|]. split; [exact Hdata|].
    apply Hrun; [vm_compute; reflexivity|].
    left. vm_compute. discriminate.
Defined.

(** The overworld after leaving level 1-1 with Escape. *)
Definition back_on_the_map : Game := load_overworld_state entered_level.

(** X21: with the level table the module builds, confirming a node always
    enters a level.  In every overworld state the navigation of a frame
    starts from (a state the loop reaches, after the events of the frame),
    once the cooldown has run out, Return or Space without an arrow key
    loads the table's entry for the node under the cursor: the branch that
    warns of a missing level is never taken. *)
Theorem confirm_enters_level (placeholder : Z → Z → Node → LevelSpec)
    (events : list Event) (keys : Keys) (dt : Q) (g0 g : Game) :
  reachable (populate_level_specs placeholder) g0 →
  handle_events g0 events = Some g →
  game_state g = overworld → paused g = false →
  (ow_input_delay_timer g - dt <= 0)%Q →
  keys K_RIGHT = false → keys K_LEFT = false →
  keys K_UP = false → keys K_DOWN = false →
  keys K_RETURN || keys K_SPACE = true →
  ∃ g' world nd spec,
    dispatch (populate_level_specs placeholder) keys dt g = Some g' ∧
    frame (populate_level_specs placeholder) g0 events keys dt = Running g' ∧
    SMW_STYLE_MAP_DATA !! Z.to_nat (current_world_on_map g) = Some world ∧
    nodes world !! Z.to_nat (current_node_on_map g) = Some nd ∧
    populate_level_specs placeholder !! level_id nd = Some spec ∧
    game_state g' = level ∧ current_level_spec g' = Some spec ∧
    ow_input_delay_timer g' = ow_input_cooldown g ∧
    score g' = score g ∧ lives g' = lives g.
Proof.
  intros Hreach Hev Hgs Hp Ht Hr Hl Hu Hd Hc.
  destruct (after_events_map_ok _ events g0 g Hreach Hev)
    as [[Hne (world & Hw0 & Hw & Hn)] Hdata].
  pose proof (lookup_lt_Some _ _ _ Hw) as Hlen.
  destruct (lookup_lt_is_Some_2 (nodes world) (Z.to_nat (current_node_on_map g)))
    as [nd Hnd]; [lia|].
  destruct (populate_fold_covers placeholder (w ← SMW_STYLE_MAP_DATA; nodes w)
              level_map_config nd) as [spec Hspec].
  { apply list_elem_of_bind. exists world.
    split; [by apply (list_elem_of_lookup_2 _ _ _ Hnd)|].
    rewrite <- Hdata. by apply (list_elem_of_lookup_2 _ _ _ Hw). }
  rewrite <- populate_level_specs_fold in Hspec.
  assert (Hrun : dispatch (populate_level_specs placeholder) keys dt g =
                 Some (set_ow_input_delay_timer (ow_input_cooldown g)
                         (load_level_from_spec spec
                            (set_ow_input_delay_timer (ow_input_delay_timer g - dt) g)))).
  { unfold dispatch. rewrite Hp, Hgs.
    unfold update_overworld_map_navigation. cbv zeta.
    cbn [ow_input_delay_timer set_ow_input_delay_timer].
    apply Qlt_bool_false_iff in Ht. rewrite Ht.
    cbn [smw_map_data current_world_on_map current_node_on_map
         set_ow_input_delay_timer].
    rewrite py_index_valid by lia. rewrite Hw. cbn [mbind option_bind].
    rewrite Hr, Hl, Hu, Hd, Hc.
    rewrite py_index_valid by exact Hn. rewrite Hnd. cbn [mbind option_bind].
    rewrite Hspec. cbn [mbind option_bind].
    rewrite !load_level_record. reflexivity. }
  exists (set_ow_input_delay_timer (ow_input_cooldown g)
            (load_level_from_spec spec
               (set_ow_input_delay_timer (ow_input_delay_timer g - dt) g))),
         world, nd, spec.
  split; [exact Hrun|].
  split; [unfold frame; by rewrite Hev, Hrun|].
  split; [by rewrite <- Hdata|]. split; [exact Hnd|]. split; [exact Hspec|].
  rewrite load_level_record. repeat split.
Qed.

Lemma confirm_enters_level_witness :
  ∃ g' world nd spec,
    dispatch (populate_level_specs sample_placeholder) (pressed [K_SPACE]) (1 # 5)
      back_on_the_map = Some g' ∧
    frame (populate_level_specs sample_placeholder) entered_level [KEYDOWN K_ESCAPE]
      (pressed [K_SPACE]) (1 # 5) = Running g' ∧
    SMW_STYLE_MAP_DATA !! Z.to_nat (current_world_on_map back_on_the_map)
      = Some world ∧
    nodes world !! Z.to_nat (current_node_on_map back_on_the_map) = Some nd ∧
    populate_level_specs sample_placeholder !! level_id nd = Some spec ∧
    game_state g' = level ∧ current_level_spec g' = Some spec ∧
    ow_input_delay_timer g' = ow_input_cooldown back_on_the_map ∧
    score g' = score back_on_the_map ∧ lives g' = lives back_on_the_map.
Proof.
  apply (confirm_enters_level sample_placeholder [KEYDOWN K_ESCAPE]
           (pressed [K_SPACE]) (1 # 5) entered_level back_on_the_map).
  - apply (reach_frame (populate_level_specs sample_placeholder) init_game []
             (pressed [K_RETURN]) DT entered_level); [apply reach_init|].
    vm_compute. reflexivity.
  - vm_compute. reflexivity.
  - vm_compute. reflexivity.
  - vm_compute. reflexivity.
  - unfold Qle. vm_compute. discriminate.
  - vm_compute. reflexivity.
  - vm_compute. reflexivity.
  - vm_compute. reflexivity.
  - vm_compute. reflexivity.
  - vm_compute. reflexivity.
Defined.

(** ** The cost of a death *)

